(** * Security-scan glue of the AWS Toolkit: a shallow embedding

    The development follows two source files:

    - [packages/core/src/codewhisperer/service/securityScanHandler.ts]
      ([listScanResults], [mapToAggregatedList], [pollScanJobStatus],
      [getPresignedUrlAndUpload], [throwIfCancelled], [uploadArtifactToS3]);
    - [src/weaverbird/errors.ts] ([createUserFacingErrorMessage]).

    Asynchronous code is written in explicit state-passing style: what the
    outside world answers (the scan service, the cancellation flag, the file
    system, the storage endpoint) is a value handed to the function, and
    what the function does to the outside world is a list of events.
    Logging ([getLogger().verbose] and friends) is not modelled. *)

From Stdlib Require Import ZArith List String Ascii Bool Arith Lia.
Import ListNotations.

Open Scope Z_scope.
Open Scope list_scope.

(** ** What JavaScript code can throw *)

Inductive Exception : Type :=
| CodeScanStoppedError                (* [new CodeScanStoppedError()] *)
| Error (message : string)            (* [new Error(message)] *)
| External (reason : string).         (* raised by a collaborator: the service
                                         client, [fs], [JSON.parse], [fetch] *)

Inductive Result (A : Type) : Type :=
| Ok (a : A)
| Err (e : Exception).
Arguments Ok {A} a.
Arguments Err {A} e.

(** * [src/weaverbird/errors.ts] *)

Module Errors.

(** [String.prototype.includes]: [includes s pat] is [s.includes(pat)].
    A string is its sequence of bytes; for the ASCII patterns of the deny
    list, a match on bytes is a match on UTF-16 code units and conversely. *)
Fixpoint includes (s pat : string) : bool :=
  if String.prefix pat s then true
  else match s with
       | EmptyString => false
       | String _ s' => includes s' pat
       end.

Definition denyListedErrors : list string := ["Deserialization error"%string].

Section WithFeatureName.

(** [featureName] is imported from [./constants], which is not among the
    sources: it stays a parameter. *)
Variable featureName : string.

Definition createUserFacingErrorMessage (message : string) : string :=
  if existsb (fun err => includes message err) denyListedErrors
  then (featureName ++ " API request failed")%string
  else message.

End WithFeatureName.

(** [pat] occurs in [s]. *)
Definition Substring (pat s : string) : Prop :=
  exists before after : string, s = (before ++ pat ++ after)%string.

(** The input contains one of the deny-listed backend messages. *)
Definition DenyListed (message : string) : Prop :=
  exists err, In err denyListedErrors /\ Substring err message.

(** The suffixes of a string, the string itself first, the empty string
    last. *)
Fixpoint suffixes (s : string) : list string :=
  s :: match s with
       | EmptyString => []
       | String _ s' => suffixes s'
       end.

(** No deny-listed message can come about from the text [tail] being
    appended to a text that does not contain it: none occurs in [tail], and
    none ends in a beginning of [tail]. *)
Definition cleanTail (tail : string) : bool :=
  forallb
    (fun err =>
       negb (includes tail err)
       && forallb (fun r => match r with
                            | EmptyString => true
                            | _ => negb (String.prefix r tail)
                            end)
                  (suffixes err))
    denyListedErrors.

End Errors.

(** * [securityScanHandler.ts]: the scan status poller *)

Module Poller.

(** What [await client.getCodeScan(req)] gives: a response carrying a status
    string, or a rejection. *)
Inductive Reply : Type :=
| Status (status : string)
| Rejected (e : Exception).

(** The surroundings of one run of the poller. JavaScript is single
    threaded, so [codeScanState.isCancelling()] can only change while the
    poller is suspended in an [await]: the flag is given on entry, at the
    moment the [k]-th status query settles, and at the moment the [k]-th
    sleep ends (both counted from 0). *)
Record World : Type := {
  cancellingAtEntry : bool;
  getCodeScan : nat -> Reply;
  cancellingAfterQuery : nat -> bool;
  cancellingAfterSleep : nat -> bool
}.

(** What the poller does to the outside: status queries and sleeps. *)
Inductive Event : Type :=
| EvGetCodeScan (jobId : string)
| EvSleep (milliseconds : Z).

(** How a run ends. *)
Inductive Outcome : Type :=
| Return (status : string)
| Throw (e : Exception).

(** [throwIfCancelled], on the value the flag has when it is called. *)
Definition throwIfCancelled (isCancelling : bool) : Result unit :=
  if isCancelling then Err CodeScanStoppedError else Ok tt.

Section WithConstants.

(** [CodeWhispererConstants.codeScanJobPollingIntervalSeconds] and
    [CodeWhispererConstants.codeScanJobTimeoutSeconds] come from
    [../models/constants], which is not among the sources: they stay
    parameters. They are whole numbers of seconds, so the [number]
    arithmetic on [timer] is exact integer arithmetic. *)
Variable codeScanJobPollingIntervalSeconds : Z.
Variable codeScanJobTimeoutSeconds : Z.

(** The body of [while (true)], iteration [k], entered with the flag value
    [isCancelling] and the accumulated [timer]. The events are those from
    this iteration on. [None]: the iterations allowed by [fuel] are used up
    and the loop is still running. The variable [status] is written once,
    just before [break], and returned: the loop returns the status it
    read. *)
Fixpoint pollLoop (fuel : nat) (w : World) (jobId : string)
    (k : nat) (isCancelling : bool) (timer : Z)
  : option (Outcome * list Event) :=
  match fuel with
  | O => None
  | S fuel' =>
    match throwIfCancelled isCancelling with
    | Err e => Some (Throw e, [])
    | Ok _ =>
      match getCodeScan w k with
      | Rejected e => Some (Throw e, [EvGetCodeScan jobId])
      | Status status =>
        if negb (String.eqb status "Pending")
        then Some (Return status, [EvGetCodeScan jobId])
        else
          match throwIfCancelled (cancellingAfterQuery w k) with
          | Err e => Some (Throw e, [EvGetCodeScan jobId])
          | Ok _ =>
            let slept := EvSleep (codeScanJobPollingIntervalSeconds * 1000) in
            let timer' := timer + codeScanJobPollingIntervalSeconds in
            if timer' >? codeScanJobTimeoutSeconds
            then Some (Throw (Error "Scan job timeout."),
                       [EvGetCodeScan jobId; slept])
            else
              match pollLoop fuel' w jobId (S k)
                      (cancellingAfterSleep w k) timer' with
              | Some (outcome, events) =>
                Some (outcome, EvGetCodeScan jobId :: slept :: events)
              | None => None
              end
          end
      end
    end
  end.

Definition pollScanJobStatus (fuel : nat) (w : World) (jobId : string)
  : option (Outcome * list Event) :=
  pollLoop fuel w jobId 0%nat (cancellingAtEntry w) 0.

End WithConstants.

(** ** Vocabulary of the properties *)

(** The moments at which the cancellation flag has a value the poller can
    be told about. *)
Inductive Moment : Type :=
| AtEntry
| AfterQuery (k : nat)
| AfterSleep (k : nat).

Definition cancellingAt (w : World) (m : Moment) : bool :=
  match m with
  | AtEntry => cancellingAtEntry w
  | AfterQuery k => cancellingAfterQuery w k
  | AfterSleep k => cancellingAfterSleep w k
  end.

(** Status queries that have settled, and sleeps that have ended, by a
    moment. *)
Definition queriesSettledBy (m : Moment) : nat :=
  match m with
  | AtEntry => 0
  | AfterQuery k => S k
  | AfterSleep k => S k
  end.

Definition sleepsEndedBy (m : Moment) : nat :=
  match m with
  | AtEntry => 0
  | AfterQuery k => k
  | AfterSleep k => S k
  end.

(** The flag is true at moment [m], and every status the service has
    reported by then is Pending. *)
Definition CancelledWhilePending (w : World) (m : Moment) : Prop :=
  cancellingAt w m = true
  /\ forall j, (j < queriesSettledBy m)%nat ->
               getCodeScan w j = Status "Pending".

(** Cancellation is never set. *)
Definition NeverCancelled (w : World) : Prop :=
  forall m, cancellingAt w m = false.

(** ** Sample worlds *)

(** The service reports Pending, Pending, Completed; nobody cancels. *)
Definition worldTwoPending : World := {|
  cancellingAtEntry := false;
  getCodeScan := fun k => if (k <? 2)%nat then Status "Pending"
                          else Status "Completed";
  cancellingAfterQuery := fun _ => false;
  cancellingAfterSleep := fun _ => false
|}.

(** The service keeps reporting Pending; the user cancels during the second
    sleep (sleep number 1), and the flag stays set. *)
Definition worldCancelDuringSecondSleep : World := {|
  cancellingAtEntry := false;
  getCodeScan := fun _ => Status "Pending";
  cancellingAfterQuery := fun k => (2 <=? k)%nat;
  cancellingAfterSleep := fun k => (1 <=? k)%nat
|}.

(** The service keeps reporting Pending; the user cancels while the second
    status query is in flight. *)
Definition worldCancelDuringSecondQuery : World := {|
  cancellingAtEntry := false;
  getCodeScan := fun _ => Status "Pending";
  cancellingAfterQuery := fun k => (1 <=? k)%nat;
  cancellingAfterSleep := fun k => (1 <=? k)%nat
|}.

(** ** Vocabulary of whole runs *)

(** [n] rounds of the loop that end in a sleep: a status query, then a
    sleep of the poll interval. *)
Fixpoint rounds (jobId : string) (interval : Z) (n : nat) : list Event :=
  match n with
  | O => []
  | S n' => EvGetCodeScan jobId :: EvSleep (interval * 1000)
            :: rounds jobId interval n'
  end.

(** The number of status queries among the events of a run. *)
Definition queries (events : list Event) : nat :=
  List.length
    (filter (fun e => match e with EvGetCodeScan _ => true | _ => false end)
            events).

(** The service reports Pending three times and then Failed. *)
Definition worldThreePendingThenFailed : World := {|
  cancellingAtEntry := false;
  getCodeScan := fun k => if (k <? 3)%nat then Status "Pending"
                          else Status "Failed";
  cancellingAfterQuery := fun _ => false;
  cancellingAfterSleep := fun _ => false
|}.

(** The service reports Pending once; the second query is rejected. *)
Definition worldThrottled : World := {|
  cancellingAtEntry := false;
  getCodeScan := fun k => if (k <? 1)%nat then Status "Pending"
                          else Rejected (External "ThrottlingException");
  cancellingAfterQuery := fun _ => false;
  cancellingAfterSleep := fun _ => false
|}.

(** The service reports Pending for ever; nobody cancels. *)
Definition worldAlwaysPending : World := {|
  cancellingAtEntry := false;
  getCodeScan := fun _ => Status "Pending";
  cancellingAfterQuery := fun _ => false;
  cancellingAfterSleep := fun _ => false
|}.

End Poller.

(** * [securityScanHandler.ts]: the result aggregator *)

Module Aggregator.

(** ** Data

    The interfaces are declared in [../models/model], which is not among
    the sources; the records have the fields the code reads. Line numbers
    are whole numbers. The payloads the code only carries along
    ([relatedVulnerabilities], [recommendation], [suggestedFixes]) are kept
    as the text they arrive as. *)

Record Description : Type := {
  text : string;
  markdown : string
}.

Record Remediation : Type := {
  recommendation : string;
  suggestedFixes : list string
}.

Module RawCodeScanIssue.
Record t : Type := {
  filePath : string;
  startLine : Z;
  endLine : Z;
  title : string;
  description : Description;
  detectorId : string;
  detectorName : string;
  findingId : string;
  ruleId : option string;
  relatedVulnerabilities : list string;
  severity : string;
  remediation : Remediation
}.
End RawCodeScanIssue.

Module CodeScanIssue.
Record t : Type := {
  startLine : Z;
  endLine : Z;
  comment : string;
  title : string;
  description : Description;
  detectorId : string;
  detectorName : string;
  findingId : string;
  ruleId : option string;
  relatedVulnerabilities : list string;
  severity : string;
  recommendation : string;
  suggestedFixes : list string
}.
End CodeScanIssue.

Module AggregatedCodeScanIssue.
Record t : Type := {
  filePath : string;
  issues : list CodeScanIssue.t
}.
End AggregatedCodeScanIssue.

(** One page of [client.listCodeScanFindings]: the findings, JSON text,
    sit under one of two field names; [None] is an absent field. *)
Record ListCodeScanFindingsResponse : Type := {
  codeScanFindings : option string;
  codeAnalysisFindings : option string
}.

(** ** The [Map<string, RawCodeScanIssue[]>]

    A JavaScript [Map] iterates in the order in which its keys were first
    set: an association list, a key's entry staying where it is when the
    key is set again. *)
Definition CodeScanIssueMap : Type := list (string * list RawCodeScanIssue.t).

Definition Map_has (m : CodeScanIssueMap) (key : string) : bool :=
  existsb (fun entry => String.eqb (fst entry) key) m.

Fixpoint Map_get (m : CodeScanIssueMap) (key : string)
  : option (list RawCodeScanIssue.t) :=
  match m with
  | [] => None
  | (k, v) :: rest => if String.eqb k key then Some v else Map_get rest key
  end.

Fixpoint Map_set (m : CodeScanIssueMap) (key : string)
    (value : list RawCodeScanIssue.t) : CodeScanIssueMap :=
  match m with
  | [] => [(key, value)]
  | (k, v) :: rest =>
    if String.eqb k key then (k, value) :: rest
    else (k, v) :: Map_set rest key value
  end.

(** ** The file system, as [existsSync] and [statSync] see it *)

Record Stats : Type := { isFile : bool }.

Definition FileSystem : Type := string -> option Stats.

Definition existsSync (fs : FileSystem) (path : string) : bool :=
  match fs path with Some _ => true | None => false end.

Definition statSync (fs : FileSystem) (path : string) : Result Stats :=
  match fs path with
  | Some stats => Ok stats
  | None => Err (External "ENOENT: no such file or directory")
  end.

Section WithPlatform.

(** Library functions of the platform: [String.prototype.trim],
    [path.join] and [JSON.parse] followed by the unchecked cast to
    [RawCodeScanIssue[]] ([Err]: the text does not decode to such an
    array, and the use of it throws). The disk does not change during the
    synchronous aggregation. *)
Variable trim : string -> string.
Variable path_join : list string -> string.
Variable JSON_parse : string -> Result (list RawCodeScanIssue.t).
Variable fs : FileSystem.

(** The callback of [issues.map] (lines 74-90). *)
Definition toCodeScanIssue (issue : RawCodeScanIssue.t) : CodeScanIssue.t := {|
  CodeScanIssue.startLine :=
    if RawCodeScanIssue.startLine issue - 1 >=? 0
    then RawCodeScanIssue.startLine issue - 1
    else 0;
  CodeScanIssue.endLine := RawCodeScanIssue.endLine issue;
  CodeScanIssue.comment :=
    (trim (RawCodeScanIssue.title issue) ++ ": "
     ++ trim (text (RawCodeScanIssue.description issue)))%string;
  CodeScanIssue.title := RawCodeScanIssue.title issue;
  CodeScanIssue.description := RawCodeScanIssue.description issue;
  CodeScanIssue.detectorId := RawCodeScanIssue.detectorId issue;
  CodeScanIssue.detectorName := RawCodeScanIssue.detectorName issue;
  CodeScanIssue.findingId := RawCodeScanIssue.findingId issue;
  CodeScanIssue.ruleId := RawCodeScanIssue.ruleId issue;
  CodeScanIssue.relatedVulnerabilities :=
    RawCodeScanIssue.relatedVulnerabilities issue;
  CodeScanIssue.severity := RawCodeScanIssue.severity issue;
  CodeScanIssue.recommendation :=
    recommendation (RawCodeScanIssue.remediation issue);
  CodeScanIssue.suggestedFixes :=
    suggestedFixes (RawCodeScanIssue.remediation issue)
|}.

(** The callback of [codeScanIssues.forEach] (lines 55-67). [list.push]
    grows the array the map already holds; the [set] after it stores the
    same array again. *)
Definition groupIssue (codeScanIssueMap : CodeScanIssueMap)
    (issue : RawCodeScanIssue.t) : CodeScanIssueMap :=
  let key := RawCodeScanIssue.filePath issue in
  if Map_has codeScanIssueMap key then
    match Map_get codeScanIssueMap key with
    | None => Map_set codeScanIssueMap key [issue]
    | Some list => Map_set codeScanIssueMap key (list ++ [issue])
    end
  else Map_set codeScanIssueMap key [issue].

(** The callback of [codeScanIssueMap.forEach] (lines 69-94), on the list
    aggregated so far. *)
Definition aggregateEntry (projectPath : string)
    (aggregatedCodeScanIssueList : list AggregatedCodeScanIssue.t)
    (entry : string * list RawCodeScanIssue.t)
  : Result (list AggregatedCodeScanIssue.t) :=
  let '(key, issues) := entry in
  let filePath := path_join [projectPath; ".."%string; key] in
  if existsSync fs filePath then
    match statSync fs filePath with
    | Err e => Err e
    | Ok stats =>
      if isFile stats then
        Ok (aggregatedCodeScanIssueList
            ++ [{| AggregatedCodeScanIssue.filePath := filePath;
                   AggregatedCodeScanIssue.issues :=
                     map toCodeScanIssue issues |}])
      else Ok aggregatedCodeScanIssueList
    end
  else Ok aggregatedCodeScanIssueList.

(** [forEach] with a callback that may throw. *)
Fixpoint forEach {A S : Type} (f : S -> A -> Result S) (items : list A)
    (state : S) : Result S :=
  match items with
  | [] => Ok state
  | item :: rest =>
    match f state item with
    | Ok state' => forEach f rest state'
    | Err e => Err e
    end
  end.

(** The two objects [listScanResults] creates and every call of
    [mapToAggregatedList] updates. *)
Definition Aggregation : Type :=
  (CodeScanIssueMap * list AggregatedCodeScanIssue.t)%type.

Definition mapToAggregatedList (codeScanIssueMap : CodeScanIssueMap)
    (aggregatedCodeScanIssueList : list AggregatedCodeScanIssue.t)
    (json : string) (projectPath : string) : Result Aggregation :=
  match JSON_parse json with
  | Err e => Err e
  | Ok codeScanIssues =>
    let codeScanIssueMap' :=
      fold_left groupIssue codeScanIssues codeScanIssueMap in
    match forEach (aggregateEntry projectPath) codeScanIssueMap'
            aggregatedCodeScanIssueList with
    | Err e => Err e
    | Ok aggregatedCodeScanIssueList' =>
      Ok (codeScanIssueMap', aggregatedCodeScanIssueList')
    end
  end.

(** The callback of [.map(resp => ...)] (lines 34-40): [None] is
    [undefined]. *)
Definition findingsOf (resp : ListCodeScanFindingsResponse) : option string :=
  match codeScanFindings resp with
  | Some findings => Some findings
  | None => codeAnalysisFindings resp
  end.

(** [listScanResults], from what the paginated retrieval has collected:
    the pages in order, or the error of the request that failed.
    [pageableToCollection] is not among the sources; [client], [jobId] and
    [codeScanFindingsSchema] only go into its requests. The map and the
    list are created once and shared by all the calls of
    [mapToAggregatedList]. *)
Definition listScanResults
    (collected : Result (list ListCodeScanFindingsResponse))
    (projectPath : string) : Result (list AggregatedCodeScanIssue.t) :=
  match collected with
  | Err e => Err e
  | Ok responses =>
    let issues := map findingsOf responses in
    match
      forEach (fun state issue =>
                 match issue with
                 | Some json =>
                   mapToAggregatedList (fst state) (snd state) json projectPath
                 | None => Err (External "JSON.parse: undefined is not valid JSON")
                 end)
              issues ([], [])
    with
    | Err e => Err e
    | Ok (_, aggregatedCodeScanIssueList) => Ok aggregatedCodeScanIssueList
    end
  end.

(** ** Vocabulary of the properties *)

(** The absolute path a grouped key stands for. *)
Definition resolved (projectPath key : string) : string :=
  path_join [projectPath; ".."%string; key].

Definition IsRegularFile (path : string) : Prop :=
  exists stats, fs path = Some stats /\ isFile stats = true.

(** The findings of a page declared for [key], in page order. *)
Definition findingsFor (key : string) (page : list RawCodeScanIssue.t)
  : list RawCodeScanIssue.t :=
  filter (fun issue => String.eqb (RawCodeScanIssue.filePath issue) key) page.

(** The keys of [keys] that are not in [seen], each once, in the order of
    their first occurrence. *)
Fixpoint distinctFrom (seen keys : list string) : list string :=
  match keys with
  | [] => []
  | key :: rest =>
    if existsb (String.eqb key) seen then distinctFrom seen rest
    else key :: distinctFrom (seen ++ [key]) rest
  end.

(** The distinct file paths a page declares, in order of first occurrence. *)
Definition distinctFiles (page : list RawCodeScanIssue.t) : list string :=
  distinctFrom [] (map RawCodeScanIssue.filePath page).

(** The aggregated issue of [key] for the findings of [page]. *)
Definition aggregatedFor (projectPath : string)
    (page : list RawCodeScanIssue.t) (key : string)
  : AggregatedCodeScanIssue.t := {|
  AggregatedCodeScanIssue.filePath := resolved projectPath key;
  AggregatedCodeScanIssue.issues := map toCodeScanIssue (findingsFor key page)
|}.

(** Appending [issue] to the entry of its file, wherever it is. *)
Definition pushTo (issue : RawCodeScanIssue.t)
    (entry : string * list RawCodeScanIssue.t) :=
  if String.eqb (fst entry) (RawCodeScanIssue.filePath issue)
  then (fst entry, snd entry ++ [issue])
  else entry.

(** The keys of the map, in iteration order. *)
Definition Map_keys (m : CodeScanIssueMap) : list string := map fst m.

(** [existsSync(path) && statSync(path).isFile()], as a boolean. *)
Definition isRegularFile (path : string) : bool :=
  match fs path with
  | Some stats => isFile stats
  | None => false
  end.

(** What one traversal of the map appends to the aggregated list. *)
Definition emitted (projectPath : string) (m : CodeScanIssueMap)
  : list AggregatedCodeScanIssue.t :=
  flat_map
    (fun entry =>
       if isRegularFile (resolved projectPath (fst entry))
       then [{| AggregatedCodeScanIssue.filePath :=
                  resolved projectPath (fst entry);
                AggregatedCodeScanIssue.issues :=
                  map toCodeScanIssue (snd entry) |}]
       else [])
    m.

(** The findings of a page decode to [page]. *)
Definition DecodesTo (resp : ListCodeScanFindingsResponse)
    (page : list RawCodeScanIssue.t) : Prop :=
  exists json, findingsOf resp = Some json /\ JSON_parse json = Ok page.

(** Every page carries findings that decode. *)
Definition AllDecode (responses : list ListCodeScanFindingsResponse) : Prop :=
  Forall (fun resp => exists page, DecodesTo resp page) responses.

(** Some finding of some page declares [key]. *)
Definition Declared (responses : list ListCodeScanFindingsResponse)
    (key : string) : Prop :=
  exists resp page issue,
    In resp responses /\ DecodesTo resp page /\ In issue page
    /\ RawCodeScanIssue.filePath issue = key.

(** The run of [listScanResults] over decoded pages, without the error
    plumbing: each page is grouped into the map, and the whole map is
    traversed once more. *)
Fixpoint runPages (projectPath : string)
    (pages : list (list RawCodeScanIssue.t)) (state : Aggregation)
  : Aggregation :=
  match pages with
  | [] => state
  | page :: rest =>
    let m := fold_left groupIssue page (fst state) in
    runPages projectPath rest (m, snd state ++ emitted projectPath m)
  end.

(** The findings of a page do not decode, and using them throws [e]: the
    text is rejected by [JSON.parse], or both fields are absent and
    [JSON.parse(undefined)] throws. *)
Definition FailsToDecode (resp : ListCodeScanFindingsResponse)
    (e : Exception) : Prop :=
  match findingsOf resp with
  | Some json => JSON_parse json = Err e
  | None => e = External "JSON.parse: undefined is not valid JSON"
  end.

(** The distinct file paths of [page] whose resolved path is a regular
    file, in order of first occurrence. *)
Definition regularFiles (projectPath : string)
    (page : list RawCodeScanIssue.t) : list string :=
  filter (fun key => isRegularFile (resolved projectPath key))
         (distinctFiles page).

(** How many aggregated issues a list holds for [path]. *)
Definition issuesFor (path : string)
    (aggregated : list AggregatedCodeScanIssue.t) : nat :=
  List.length (filter (fun a => String.eqb (AggregatedCodeScanIssue.filePath a) path)
                 aggregated).

End WithPlatform.

(** ** Sample data

    A stand-in platform: [trim] leaves its text alone, [path.join] joins
    with a slash and does not normalise, two texts decode, and the project
    has two files. *)

Definition sampleIssue (file : string) (line : Z) (title : string)
  : RawCodeScanIssue.t := {|
  RawCodeScanIssue.filePath := file;
  RawCodeScanIssue.startLine := line;
  RawCodeScanIssue.endLine := line + 1;
  RawCodeScanIssue.title := title;
  RawCodeScanIssue.description := {| text := "details"; markdown := "details" |};
  RawCodeScanIssue.detectorId := "detector";
  RawCodeScanIssue.detectorName := "Detector";
  RawCodeScanIssue.findingId := title;
  RawCodeScanIssue.ruleId := None;
  RawCodeScanIssue.relatedVulnerabilities := [];
  RawCodeScanIssue.severity := "High";
  RawCodeScanIssue.remediation :=
    {| recommendation := "fix it"; suggestedFixes := [] |}
|}.

(** "a.py" twice and "b.py" once, interleaved. *)
Definition samplePage1 : list RawCodeScanIssue.t :=
  [sampleIssue "a.py" 3 "first"; sampleIssue "b.py" 0 "second";
   sampleIssue "a.py" 7 "third"].

(** A later page: "b.py" again, and a file that is gone from the disk. *)
Definition samplePage2 : list RawCodeScanIssue.t :=
  [sampleIssue "b.py" 9 "fourth"; sampleIssue "gone.py" 1 "fifth"].

Definition sampleTrim (s : string) : string := s.

Definition samplePathJoin (parts : list string) : string :=
  String.concat "/" parts.

Definition sampleParse (json : string)
  : Result (list RawCodeScanIssue.t) :=
  if String.eqb json "page-1" then Ok samplePage1
  else if String.eqb json "page-2" then Ok samplePage2
  else Err (External "SyntaxError").

Definition sampleDisk : FileSystem := fun path =>
  if String.eqb path "/work/project/../a.py" then Some {| isFile := true |}
  else if String.eqb path "/work/project/../b.py" then Some {| isFile := true |}
  else if String.eqb path "/work/project/.." then Some {| isFile := false |}
  else None.

Definition sampleResponse1 : ListCodeScanFindingsResponse :=
  {| codeScanFindings := Some "page-1"%string; codeAnalysisFindings := None |}.

Definition sampleResponse2 : ListCodeScanFindingsResponse :=
  {| codeScanFindings := None; codeAnalysisFindings := Some "page-2"%string |}.

(** A page whose findings are not JSON. *)
Definition sampleResponseBroken : ListCodeScanFindingsResponse :=
  {| codeScanFindings := Some "<html>"%string; codeAnalysisFindings := None |}.

End Aggregator.

(** * [securityScanHandler.ts]: the upload preparer and the uploader *)

Module Upload.

(** ** Data

    [Truncation] comes from [../util/dependencyGraph/dependencyGraph], the
    request and response types from [../client/codewhispereruserclient];
    neither file is among the sources. The records have the fields the code
    reads or writes. File contents are the text of their bytes. *)

Record Truncation : Type := { zipFilePath : string }.

Record CreateUploadUrlRequest : Type := {
  contentMd5 : string;
  artifactType : string
}.

Record CreateUploadUrlResponse : Type := {
  uploadId : string;
  uploadUrl : string;
  requestHeaders : list (string * string)
}.

Record ArtifactMap : Type := { SourceCode : string }.

(** What the storage endpoint does with a request: it answers with an HTTP
    status, or the transfer fails on the way. *)
Inductive EndpointReply : Type :=
| HttpResponse (status : Z) (statusText : string)
| NetworkError (reason : string).

(** The surroundings of an upload: the disk, the digest function of
    [crypto], the scan service and the storage endpoint. *)
Record World : Type := {
  readFileSync : string -> Result string;
  md5Base64 : string -> string;
  createUploadUrl : CreateUploadUrlRequest -> Result CreateUploadUrlResponse;
  storage : string -> string -> string -> list (string * string)
            -> EndpointReply
}.

(** What the code does to the outside. *)
Inductive Event : Type :=
| EvReadFile (fileName : string)
| EvCreateUploadUrl (req : CreateUploadUrlRequest)
| EvFetch (method url body : string) (headers : list (string * string)).

(** ** Computations that act on the outside and may throw *)

Definition M (A : Type) : Type := (Result A * list Event)%type.

Definition ret {A} (a : A) : M A := (Ok a, []).

Definition throw {A} (e : Exception) : M A := (Err e, []).

Definition bind {A B} (m : M A) (k : A -> M B) : M B :=
  match m with
  | (Ok a, events) => let '(r, events') := k a in (r, events ++ events')
  | (Err e, events) => (Err e, events)
  end.

(** [try { m } catch (error) { handler error }] *)
Definition tryCatch {A} (m : M A) (handler : Exception -> M A) : M A :=
  match m with
  | (Ok a, events) => (Ok a, events)
  | (Err e, events) =>
    let '(r, events') := handler e in (r, events ++ events')
  end.

(** An action on the outside, with its result. *)
Definition perform {A} (event : Event) (result : Result A) : M A :=
  (result, [event]).

Notation "x <- m ;; k" := (bind m (fun x => k))
  (at level 61, m at next level, right associativity).

(** Modelled from the spec: [request.fetch(...).response] of
    [../../common/request], which is not among the sources. The spec counts
    both a network error and a non-success response of the storage endpoint
    as failures of the upload, so the promise is fulfilled with the response
    for a status from 200 to 299 and rejected otherwise. *)
Definition isSuccess (status : Z) : bool :=
  (200 <=? status) && (status <=? 299).

Definition fetchResponse (reply : EndpointReply) : Result (Z * string) :=
  match reply with
  | HttpResponse status statusText =>
    if isSuccess status then Ok (status, statusText)
    else Err (External statusText)
  | NetworkError reason => Err (External reason)
  end.

(** ** The functions *)

Definition uploadFailedMessage : string :=
  "Amazon Q is unable to upload workspace artifacts to Amazon S3 for security scans. For more information, see the [Amazon Q documentation](https://docs.aws.amazon.com/amazonq/latest/qdeveloper-ug/security_iam_manage-access-with-policies.html) or contact your network or organization administrator.".

Definition readFile (w : World) (fileName : string) : M string :=
  perform (EvReadFile fileName) (readFileSync w fileName).

(** [request.fetch(method, url, { body, headers }).response] *)
Definition fetch (w : World) (method url body : string)
    (headers : list (string * string)) : M (Z * string) :=
  perform (EvFetch method url body headers)
          (fetchResponse (storage w method url body headers)).

Definition getMd5 (w : World) (fileName : string) : M string :=
  bytes <- readFile w fileName ;;
  ret (md5Base64 w bytes).

(** The argument [readFileSync(fileName)] is evaluated before the request
    is made; both sit inside the [try]. *)
Definition uploadArtifactToS3 (w : World) (fileName : string)
    (resp : CreateUploadUrlResponse) : M unit :=
  tryCatch
    (body <- readFile w fileName ;;
     response <- fetch w "PUT" (uploadUrl resp) body (requestHeaders resp) ;;
     ret tt)
    (fun error => throw (Error uploadFailedMessage)).

Definition getPresignedUrlAndUpload (w : World) (truncation : Truncation)
  : M ArtifactMap :=
  if String.eqb (zipFilePath truncation) "" then
    throw (Error "Truncation failure: can't find valid source zip.")
  else
    md5 <- getMd5 w (zipFilePath truncation) ;;
    let srcReq := {| contentMd5 := md5; artifactType := "SourceCode" |} in
    srcResp <- perform (EvCreateUploadUrl srcReq) (createUploadUrl w srcReq) ;;
    _ <- uploadArtifactToS3 w (zipFilePath truncation) srcResp ;;
    ret {| SourceCode := uploadId srcResp |}.

(** ** Vocabulary of the properties *)

(** The upload attempt fails: a network error, or a response whose status
    is not a success. *)
Definition UploadFails (reply : EndpointReply) : Prop :=
  match reply with
  | HttpResponse status _ => ~ (200 <= status <= 299)
  | NetworkError _ => True
  end.

(** The number of requests made to the storage endpoint. *)
Definition puts (events : list Event) : nat :=
  List.length
    (filter (fun e => match e with EvFetch _ _ _ _ => true | _ => false end)
            events).

(** ** Sample worlds *)

Definition sampleUploadResponse : CreateUploadUrlResponse := {|
  uploadId := "upload-1";
  uploadUrl := "https://bucket.example/upload-1";
  requestHeaders := [("content-type", "application/zip")]%string
|}.

(** A world whose storage endpoint refuses every request with 403. *)
Definition worldForbidden : World := {|
  readFileSync := fun fileName =>
    if String.eqb fileName "/tmp/src.zip" then Ok "PK-bytes"%string
    else Err (External "ENOENT");
  md5Base64 := fun _ => "1B2M2Y8AsgTpgAmY7PhCfg=="%string;
  createUploadUrl := fun _ => Ok sampleUploadResponse;
  storage := fun _ _ _ _ => HttpResponse 403 "Forbidden"
|}.

(** A world in which everything works. *)
Definition worldAccepting : World := {|
  readFileSync := readFileSync worldForbidden;
  md5Base64 := md5Base64 worldForbidden;
  createUploadUrl := createUploadUrl worldForbidden;
  storage := fun _ _ _ _ => HttpResponse 200 "OK"
|}.

(** A world whose scan service refuses to issue an upload URL. *)
Definition worldNoUploadUrl : World := {|
  readFileSync := readFileSync worldForbidden;
  md5Base64 := md5Base64 worldForbidden;
  createUploadUrl := fun _ => Err (External "AccessDeniedException");
  storage := fun _ _ _ _ => HttpResponse 200 "OK"
|}.

End Upload.

(** * [amazonqScans/chat/views/connector/connector.ts]: chat messages *)

Module Connector.

Inductive ScanMessageType : Type :=
| errorMessage
| asyncEventProgressMessage
| authenticationUpdateMessage
| authNeededException
| chatPrompt
| chatMessage
| chatInputEnabledMessage
| sendCommandMessage
| updatePlaceholderMessage.

(** The button objects the code builds (lines 110-121). [ChatItemButton]
    belongs to the UI library and has more, optional, fields; buttons that
    are only passed through are kept as they come. *)
Record ChatItemButton : Type := {
  keepCardAfterClick : bool;
  waitMandatoryFormItems : bool;
  text : string;
  id : string
}.

(** The fields of [UiMessage], with the overriding [type] of the subclass. *)
Record UiMessage : Type := {
  time : Z;
  sender : string;
  type : ScanMessageType;
  status : string;
  tabID : string
}.

Record ChatPromptProps : Type := {
  promptMessage : option string;
  promptFormItems : list string
}.

Record ChatPrompt : Type := {
  prompt_ui : UiMessage;
  prompt_message : option string;
  prompt_messageType : string;
  formItems : list string;
  formButtons : list ChatItemButton
}.

Record ChatMessageProps : Type := {
  props_message : option string;
  props_messageId : option string;
  props_messageType : string;
  props_buttons : option (list ChatItemButton)
}.

Record ChatMessage : Type := {
  chat_ui : UiMessage;
  message : option string;
  messageId : option string;
  messageType : string;
  buttons : list ChatItemButton
}.

Section WithHost.

(** [Date.now()] at construction, and the constant [scanChat] of
    [../../../models/constants], which is not among the sources. *)
Variable now : Z.
Variable scanChat : string.

Definition newUiMessage (type : ScanMessageType) (tabID : string)
  : UiMessage := {|
  time := now;
  sender := scanChat;
  type := type;
  status := "info";
  tabID := tabID
|}.

(** [new ChatPrompt(props, promptIDPrefix, tabID, keepCardAfterClick)]; the
    last argument may be left out ([None]) and is then [true]. *)
Definition newChatPrompt (props : ChatPromptProps) (promptIDPrefix : string)
    (tabID : string) (keepCardAfterClick : option bool) : ChatPrompt :=
  let keep := match keepCardAfterClick with
              | Some b => b
              | None => true
              end in
  {| prompt_ui := newUiMessage chatPrompt tabID;
     prompt_message := promptMessage props;
     prompt_messageType := "system-prompt";
     formItems := promptFormItems props;
     formButtons :=
       ([] ++ [{| keepCardAfterClick := keep;
                  waitMandatoryFormItems := true;
                  text := "Confirm";
                  id := ("gumby" ++ promptIDPrefix ++ "Confirm")%string |}])
       ++ [{| keepCardAfterClick := false;
              waitMandatoryFormItems := false;
              text := "Cancel";
              id := ("gumby" ++ promptIDPrefix ++ "Cancel")%string |}] |}.

(** [new ChatMessage(props, tabID)]. [props.buttons || []] replaces an
    absent list by the empty one (an array is never falsy);
    [props.messageId || undefined] replaces the empty string as well. *)
Definition newChatMessage (props : ChatMessageProps) (tabID : string)
  : ChatMessage := {|
  chat_ui := newUiMessage chatMessage tabID;
  message := props_message props;
  messageType := props_messageType props;
  buttons := match props_buttons props with
             | Some bs => bs
             | None => []
             end;
  messageId := match props_messageId props with
               | Some EmptyString => None
               | Some mid => Some mid
               | None => None
               end
|}.

End WithHost.

(** The last character of a text. *)
Fixpoint lastChar (s : string) : option ascii :=
  match s with
  | EmptyString => None
  | String c EmptyString => Some c
  | String _ s' => lastChar s'
  end.

End Connector.

(** * The CodeWhisperer getting-started webview: one panel at a time *)

Module Webview.

(** [CodeWhispererSource] has one value. *)
Inductive CodeWhispererSource : Type := codewhispererDeveloperTools.

(** The state of a [CodeWhispererWebview]: the constructor's [start], the
    field [isFileSaved] and the private field [#codeWhispererSource]. *)
Record CodeWhispererWebview : Type := {
  start : string;
  isFileSaved : bool;
  codeWhispererSource : option CodeWhispererSource
}.

Definition newCodeWhispererWebview (start : string) : CodeWhispererWebview := {|
  start := start;
  isFileSaved := false;
  codeWhispererSource := None
|}.

Definition showAtStartUp (view : CodeWhispererWebview) : string := start view.

(** [setSource]: a source already set is kept. *)
Definition setSource (view : CodeWhispererWebview)
    (source : option CodeWhispererSource) : CodeWhispererWebview :=
  match codeWhispererSource view with
  | Some _ => view
  | None => {| start := start view;
               isFileSaved := isFileSaved view;
               codeWhispererSource := source |}
  end.

(** [getOSType], on the value of [os.platform()]. *)
Definition getOSType (platform : string) : string :=
  if String.eqb platform "win32" then "Windows"
  else if String.eqb platform "darwin" then "Mac"
  else "undefined".

(** The two module-level variables: the active panel, seen through its
    [server], and whether the dispose handler is subscribed. *)
Record ModuleState : Type := {
  activePanel : option CodeWhispererWebview;
  subscriptions : bool
}.

Definition initialState : ModuleState :=
  {| activePanel := None; subscriptions := false |}.

(** What the module does to the editor. *)
Inductive Effect : Type :=
| EffCreatePanel (start : string)
| EffShow
| EffSubscribeDispose.

(** One call of [showCodeWhispererWebview], run to its end before the next
    call or event. *)
Definition showCodeWhispererWebview (state : ModuleState)
    (source : CodeWhispererSource) (start : string)
  : ModuleState * list Effect :=
  let '(panel, created) :=
    match activePanel state with
    | Some panel => (panel, [])
    | None => (newCodeWhispererWebview start, [EffCreatePanel start])
    end in
  let panel := setSource panel (Some source) in
  if subscriptions state
  then ({| activePanel := Some panel; subscriptions := true |},
        created ++ [EffShow])
  else ({| activePanel := Some panel; subscriptions := true |},
        created ++ [EffShow; EffSubscribeDispose]).

(** The callback given to [webview.onDidDispose] (lines 133-137). *)
Definition onDidDispose (state : ModuleState) : ModuleState :=
  {| activePanel := None; subscriptions := false |}.

(** What happens to the module, one thing at a time: a call of
    [showCodeWhispererWebview], or the webview being disposed. The
    callback exists only once it has been subscribed. *)
Inductive Action : Type :=
| Show (source : CodeWhispererSource) (start : string)
| Disposed.

Definition step (state : ModuleState) (action : Action) : ModuleState :=
  match action with
  | Show source start => fst (showCodeWhispererWebview state source start)
  | Disposed => if subscriptions state then onDidDispose state else state
  end.

Definition run (actions : list Action) : ModuleState :=
  fold_left step actions initialState.

(** The [start] of the last [Show] that found no panel: [None] when the
    actions leave no panel. *)
Fixpoint panelStart (current : option string) (actions : list Action)
  : option string :=
  match actions with
  | [] => current
  | Show _ start :: rest =>
    panelStart (match current with Some s => Some s | None => Some start end)
               rest
  | Disposed :: rest => panelStart None rest
  end.

(** How many dispose handlers the actions subscribe, and how many panels
    they create. *)
Fixpoint effectsOf (state : ModuleState) (actions : list Action)
  : list Effect :=
  match actions with
  | [] => []
  | action :: rest =>
    match action with
    | Show source start =>
      snd (showCodeWhispererWebview state source start)
    | Disposed => []
    end ++ effectsOf (step state action) rest
  end.

Definition countEffect (wanted : Effect -> bool) (effects : list Effect)
  : nat :=
  List.length (filter wanted effects).

Definition isCreate (e : Effect) : bool :=
  match e with EffCreatePanel _ => true | _ => false end.

Definition isSubscribe (e : Effect) : bool :=
  match e with EffSubscribeDispose => true | _ => false end.

(** The two module variables go together. *)
Definition Coherent (state : ModuleState) : Prop :=
  subscriptions state = match activePanel state with
                        | Some _ => true
                        | None => false
                        end.

End Webview.
(** * Properties of [src/weaverbird/errors.ts] *)

Module ErrorsFacts.
Import Errors.

Lemma prefix_app (p s : string) :
  String.prefix p s = true <-> exists q, s = (p ++ q)%string.
Proof.
  revert s; induction p as [|c p IH]; intros s; simpl.
  - split; [intros _; exists s; reflexivity | destruct s; reflexivity].
  - destruct s as [|d s]; simpl.
    + split; [discriminate | intros [q Hq]; discriminate].
    + destruct (Ascii.ascii_dec c d) as [->|Hne].
      * rewrite IH. split; intros [q Hq]; exists q; congruence.
      * split; [discriminate | intros [q Hq]; congruence].
Qed.

Lemma includes_Substring (s pat : string) :
  includes s pat = true <-> Substring pat s.
Proof.
  induction s as [|c s IH]; cbn [includes].
  - destruct (String.prefix pat "") eqn:Hp.
    + split; [intros _ | reflexivity].
      apply prefix_app in Hp as [q Hq]. exists ""%string, q. exact Hq.
    + split; [discriminate |].
      intros [b [a Hs]]. destruct b; simpl in Hs; [| discriminate].
      assert (String.prefix pat "" = true) by (apply prefix_app; eauto).
      congruence.
  - destruct (String.prefix pat (String c s)) eqn:Hp.
    + split; [intros _ | reflexivity].
      apply prefix_app in Hp as [q Hq]. exists ""%string, q. exact Hq.
    + rewrite IH. split.
      * intros [b [a Hs]]. exists (String c b), a. simpl. now rewrite Hs.
      * intros [b [a Hs]]. destruct b as [|d b]; simpl in Hs.
        -- assert (String.prefix pat (String c s) = true)
             by (apply prefix_app; eauto).
           congruence.
        -- exists b, a. congruence.
Qed.

Lemma existsb_DenyListed (message : string) :
  existsb (fun err => includes message err) denyListedErrors = true
  <-> DenyListed message.
Proof.
  rewrite existsb_exists. unfold DenyListed.
  split; intros [err [Hin H]]; exists err; split; trivial;
    now apply includes_Substring.
Qed.

(** C9. The user-facing transformation returns the generic feature-branded
    message, [featureName] followed by " API request failed", when the input
    contains a deny-listed backend substring, and returns the input verbatim
    when it contains none. *)
Theorem createUserFacingErrorMessage_spec (featureName message : string) :
  (DenyListed message ->
   createUserFacingErrorMessage featureName message
   = (featureName ++ " API request failed")%string)
  /\ (~ DenyListed message ->
      createUserFacingErrorMessage featureName message = message).
Proof.
  unfold createUserFacingErrorMessage.
  destruct (existsb _ denyListedErrors) eqn:He.
  - split; [reflexivity |].
    intros Hn. exfalso. apply Hn. now apply existsb_DenyListed.
  - split; [| reflexivity].
    intros Hd. apply existsb_DenyListed in Hd. congruence.
Qed.

Example createUserFacingErrorMessage_noisy :
  createUserFacingErrorMessage "Amazon Q"
    "Unexpected: Deserialization error: failed to parse body"
  = "Amazon Q API request failed"%string.
Proof. reflexivity. Qed.

Example createUserFacingErrorMessage_verbatim :
  createUserFacingErrorMessage "Amazon Q" "Access denied"
  = "Access denied"%string.
Proof. reflexivity. Qed.

End ErrorsFacts.

(** * What the user-facing message can contain *)

Module ErrorsMore.
Import Errors ErrorsFacts.

Lemma string_app_assoc (a b c : string) :
  ((a ++ b) ++ c = a ++ b ++ c)%string.
Proof. induction a as [|x a IH]; cbn; [reflexivity | now rewrite IH]. Qed.

Lemma string_app_nil_r (a : string) : (a ++ "" = a)%string.
Proof. induction a as [|x a IH]; cbn; [reflexivity | now rewrite IH]. Qed.

(** Two ways of cutting one text: one cut is inside the first part of the
    other. *)
Lemma string_app_eq_app (f : string) : forall s p q : string,
  (f ++ s = p ++ q)%string ->
  (exists r, f = p ++ r /\ q = r ++ s)%string
  \/ (exists r, r <> ""%string /\ p = f ++ r /\ s = r ++ q)%string.
Proof.
  induction f as [|c f IH]; intros s p q H; cbn in H.
  - destruct p as [|d p].
    + left. exists ""%string. split; [reflexivity | exact (eq_sym H)].
    + right. exists (String d p). repeat split; [discriminate | exact H].
  - destruct p as [|d p]; cbn in H.
    + left. exists (String c f). split; [reflexivity | exact (eq_sym H)].
    + injection H as -> H. destruct (IH _ _ _ H) as [[r [Hf Hq]]|[r [Hr [Hp Hs]]]].
      * left. exists r. split; [cbn; now rewrite Hf | exact Hq].
      * right. exists r. repeat split; [exact Hr | cbn; now rewrite Hp | exact Hs].
Qed.

Lemma suffixes_In (f : string) : forall p r : string,
  (p = f ++ r)%string -> In r (suffixes p).
Proof.
  induction f as [|c f IH]; intros p r ->; cbn.
  - destruct r; now left.
  - right. now apply IH.
Qed.

(** Appending a clean tail to a text brings no deny-listed message in. *)
Lemma DenyListed_app_clean (text tail : string) :
  cleanTail tail = true ->
  DenyListed (text ++ tail) -> DenyListed text.
Proof.
  unfold cleanTail. rewrite forallb_forall.
  intros Hclean [err [Hin [before [after H]]]].
  specialize (Hclean err Hin). apply andb_true_iff in Hclean as [Ht Hs].
  apply negb_true_iff in Ht. rewrite forallb_forall in Hs.
  exists err. split; [exact Hin |].
  apply string_app_eq_app in H as [[r [Hf Hq]]|[r [Hr [Hp Hs']]]].
  - (* the message starts inside [text] *)
    symmetry in Hq.
    apply string_app_eq_app in Hq as [[r' [Hr' _]]|[r' [Hne [Herr Htail]]]].
    + exists before, r'. now rewrite Hf, Hr'.
    + exfalso. specialize (Hs r' (suffixes_In _ _ _ Herr)).
      destruct r' as [|c r']; [congruence |].
      apply negb_true_iff in Hs.
      assert (String.prefix (String c r') tail = true)
        by (apply prefix_app; eauto).
      congruence.
  - (* the message lies in [tail] *)
    exfalso.
    assert (includes tail err = true)
      by (apply includes_Substring; exists r, after; exact Hs').
    congruence.
Qed.

Lemma generic_message_clean (featureName : string) :
  ~ DenyListed featureName ->
  ~ DenyListed (featureName ++ " API request failed").
Proof.
  intros Hname Hd. apply Hname.
  now apply (DenyListed_app_clean featureName " API request failed").
Qed.

(** X18. The noisy backend text never reaches the user: when the feature
    name contains no deny-listed message, neither does the user-facing
    message, whatever the input. *)
Theorem user_facing_message_is_clean (featureName message : string) :
  ~ DenyListed featureName ->
  ~ DenyListed (createUserFacingErrorMessage featureName message).
Proof.
  intros Hname. unfold createUserFacingErrorMessage.
  destruct (existsb _ denyListedErrors) eqn:He.
  - now apply generic_message_clean.
  - intros Hd. apply existsb_DenyListed in Hd. congruence.
Qed.

Lemma user_facing_message_is_clean_witness :
  ~ DenyListed
      (createUserFacingErrorMessage "Amazon Q"
         "Deserialization error: to see the raw response, inspect the field").
Proof.
  apply (user_facing_message_is_clean "Amazon Q").
  intros Hd. apply existsb_DenyListed in Hd. vm_compute in Hd. discriminate.
Defined.

(** X19. Applying the transformation twice is applying it once, whatever
    the feature name and the input. *)
Theorem createUserFacingErrorMessage_idempotent (featureName message : string) :
  createUserFacingErrorMessage featureName
    (createUserFacingErrorMessage featureName message)
  = createUserFacingErrorMessage featureName message.
Proof.
  destruct (existsb (fun err => includes message err) denyListedErrors)
    eqn:He.
  - assert (E : createUserFacingErrorMessage featureName message
                = (featureName ++ " API request failed")%string)
      by (unfold createUserFacingErrorMessage; now rewrite He).
    rewrite E. unfold createUserFacingErrorMessage.
    match goal with |- (if ?b then _ else _) = _ => now destruct b end.
  - assert (E : createUserFacingErrorMessage featureName message = message)
      by (unfold createUserFacingErrorMessage; now rewrite He).
    now rewrite !E.
Qed.

End ErrorsMore.

(** * Properties of the scan status poller *)

Module PollerFacts.
Import Poller.

Section Loop.

Variable interval : Z.
Variable timeout : Z.

Local Abbreviation pollLoop := (pollLoop interval timeout).
Local Abbreviation pollScanJobStatus := (pollScanJobStatus interval timeout).

(** One unfolding of the loop, with the cancellation checks decided. *)
Lemma pollLoop_cancelled fuel w jobId k timer :
  pollLoop (S fuel) w jobId k true timer
  = Some (Throw CodeScanStoppedError, []).
Proof. reflexivity. Qed.

Lemma pollLoop_pending fuel w jobId k timer :
  getCodeScan w k = Status "Pending" ->
  pollLoop (S fuel) w jobId k false timer
  = if cancellingAfterQuery w k
    then Some (Throw CodeScanStoppedError, [EvGetCodeScan jobId])
    else if timer + interval >? timeout
    then Some (Throw (Error "Scan job timeout."),
               [EvGetCodeScan jobId; EvSleep (interval * 1000)])
    else match pollLoop fuel w jobId (S k) (cancellingAfterSleep w k)
                 (timer + interval) with
         | Some (outcome, events) =>
           Some (outcome,
                 EvGetCodeScan jobId :: EvSleep (interval * 1000) :: events)
         | None => None
         end.
Proof.
  intros Hp. cbn [Poller.pollLoop throwIfCancelled]. rewrite Hp.
  cbn [String.eqb Ascii.eqb Bool.eqb negb].
  destruct (cancellingAfterQuery w k); reflexivity.
Qed.

Lemma pollLoop_settled fuel w jobId k timer status :
  getCodeScan w k = Status status ->
  status <> "Pending"%string ->
  pollLoop (S fuel) w jobId k false timer
  = Some (Return status, [EvGetCodeScan jobId]).
Proof.
  intros Hs Hne. cbn [Poller.pollLoop throwIfCancelled]. rewrite Hs.
  apply String.eqb_neq in Hne. now rewrite Hne.
Qed.

(** The loop body, as an equation. *)
Lemma pollLoop_S fuel w jobId k c timer :
  pollLoop (S fuel) w jobId k c timer
  = match throwIfCancelled c with
    | Err e => Some (Throw e, [])
    | Ok _ =>
      match getCodeScan w k with
      | Rejected e => Some (Throw e, [EvGetCodeScan jobId])
      | Status status =>
        if negb (String.eqb status "Pending")
        then Some (Return status, [EvGetCodeScan jobId])
        else
          match throwIfCancelled (cancellingAfterQuery w k) with
          | Err e => Some (Throw e, [EvGetCodeScan jobId])
          | Ok _ =>
            if timer + interval >? timeout
            then Some (Throw (Error "Scan job timeout."),
                       [EvGetCodeScan jobId; EvSleep (interval * 1000)])
            else
              match pollLoop fuel w jobId (S k)
                      (cancellingAfterSleep w k) (timer + interval) with
              | Some (outcome, events) =>
                Some (outcome,
                      EvGetCodeScan jobId :: EvSleep (interval * 1000)
                        :: events)
              | None => None
              end
          end
      end
    end.
Proof. reflexivity. Qed.

(** More fuel does not change a result. *)
Lemma pollLoop_fuel_mono fuel : forall w jobId k c timer r,
  pollLoop fuel w jobId k c timer = Some r ->
  pollLoop (S fuel) w jobId k c timer = Some r.
Proof.
  induction fuel as [|fuel IH]; intros w jobId k c timer r H;
    [discriminate |].
  rewrite pollLoop_S in H. rewrite pollLoop_S.
  destruct (throwIfCancelled c); [| exact H].
  destruct (getCodeScan w k) as [status|e]; [| exact H].
  destruct (negb (status =? "Pending")%string); [exact H |].
  destruct (throwIfCancelled (cancellingAfterQuery w k)); [| exact H].
  destruct (timer + interval >? timeout); [exact H |].
  destruct (Poller.pollLoop interval timeout fuel w jobId (S k)
              (cancellingAfterSleep w k) (timer + interval))
    as [[o ev]|] eqn:Hrec; [| discriminate].
  now rewrite (IH _ _ _ _ _ _ Hrec).
Qed.

Lemma pollLoop_fuel_le fuel fuel' w jobId k c timer r :
  (fuel <= fuel')%nat ->
  pollLoop fuel w jobId k c timer = Some r ->
  pollLoop fuel' w jobId k c timer = Some r.
Proof.
  induction 1 as [|n Hle IH]; intros H; [exact H |].
  apply pollLoop_fuel_mono. now apply IH.
Qed.

(** The loop ends: with a positive interval, every iteration that sleeps
    moves [timer] towards the timeout. *)
Lemma pollLoop_terminates (Hpos : 0 < interval) fuel :
  forall w jobId k c timer,
  (0 < fuel)%nat ->
  timeout - timer < interval * Z.of_nat fuel ->
  exists r, pollLoop fuel w jobId k c timer = Some r.
Proof.
  induction fuel as [|fuel IH]; intros w jobId k c timer Hf Hm; [lia |].
  cbn [Poller.pollLoop].
  destruct (throwIfCancelled c); [| eauto].
  destruct (getCodeScan w k) as [status|e]; [| eauto].
  destruct (negb (status =? "Pending")%string); [eauto |].
  destruct (throwIfCancelled (cancellingAfterQuery w k)); [| eauto].
  destruct (timer + interval >? timeout) eqn:Ht; [eauto |].
  rewrite Z.gtb_ltb in Ht. apply Z.ltb_ge in Ht.
  destruct (IH w jobId (S k) (cancellingAfterSleep w k) (timer + interval))
    as [[o ev] Hr]; [nia | nia |].
  rewrite Hr. eauto.
Qed.

Lemma pollScanJobStatus_terminates (Hpos : 0 < interval) w jobId :
  exists fuel r, pollScanJobStatus fuel w jobId = Some r.
Proof.
  exists (S (Z.to_nat timeout)).
  apply pollLoop_terminates; [exact Hpos | lia | nia].
Qed.

(** A normal return hands back the first status that is not Pending. *)
Lemma pollLoop_returns fuel : forall w jobId k c timer status events,
  pollLoop fuel w jobId k c timer = Some (Return status, events) ->
  status <> "Pending"%string
  /\ exists n, (k <= n)%nat
       /\ getCodeScan w n = Status status
       /\ forall j, (k <= j < n)%nat -> getCodeScan w j = Status "Pending".
Proof.
  induction fuel as [|fuel IH]; intros w jobId k c timer status events H;
    [discriminate |].
  cbn [Poller.pollLoop] in H.
  destruct c; cbn [throwIfCancelled] in H; [discriminate |].
  destruct (getCodeScan w k) as [st|e] eqn:Hq; [| discriminate].
  destruct (String.eqb_spec st "Pending") as [->|Hne];
    cbn [negb] in H.
  - destruct (cancellingAfterQuery w k); cbn [throwIfCancelled] in H;
      [discriminate |].
    destruct (timer + interval >? timeout); [discriminate |].
    destruct (Poller.pollLoop interval timeout fuel w jobId (S k)
                (cancellingAfterSleep w k) (timer + interval))
      as [[o ev]|] eqn:Hrec; [| discriminate].
    injection H as -> _.
    destruct (IH _ _ _ _ _ _ _ Hrec) as [Hnp [n [Hle [Hn Hbefore]]]].
    split; [exact Hnp |].
    exists n. split; [lia |]. split; [exact Hn |].
    intros j Hj. destruct (Nat.eq_dec j k) as [->|Hjk]; [exact Hq |].
    apply Hbefore. lia.
  - injection H as <- _. split; [exact Hne |].
    exists k. split; [lia |]. split; [exact Hq |]. intros j Hj. lia.
Qed.

(** Cancellation seen at moment [m] stops the run, as long as no sleep
    before [m] has carried [timer] past the timeout. *)
Lemma pollLoop_stops w jobId m
  (Hm : CancelledWhilePending w m)
  (Hin : forall j, (j < sleepsEndedBy m)%nat ->
                   (Z.of_nat j + 1) * interval <= timeout) :
  forall n k fuel c,
  sleepsEndedBy m = (k + n)%nat ->
  (n < fuel)%nat ->
  (match k with
   | O => c = cancellingAtEntry w
   | S k' => c = cancellingAfterSleep w k'
   end) ->
  exists events,
    pollLoop fuel w jobId k c (Z.of_nat k * interval)
    = Some (Throw CodeScanStoppedError, events).
Proof.
  destruct Hm as [Hflag Hpend].
  induction n as [|n IH]; intros k fuel c Hk Hfuel Hc;
    (destruct fuel as [|fuel]; [lia |]);
    (destruct c; [eexists; apply pollLoop_cancelled |]).
  - (* the flag is read in this iteration, after the query *)
    rewrite Nat.add_0_r in Hk.
    destruct m as [|q|s]; cbn in Hk, Hflag.
    + subst k. congruence.
    + subst q. rewrite pollLoop_pending by (apply Hpend; cbn; lia).
      cbn in Hflag. rewrite Hflag. eauto.
    + subst k. congruence.
  - assert (Hlt : (k < sleepsEndedBy m)%nat) by lia.
    assert (Hq : (k < queriesSettledBy m)%nat)
      by (destruct m; cbn in *; lia).
    rewrite pollLoop_pending by (apply Hpend; exact Hq).
    destruct (cancellingAfterQuery w k); [eauto |].
    specialize (Hin k Hlt).
    replace (Z.of_nat k * interval + interval)
      with (Z.of_nat (S k) * interval) by lia.
    destruct (Z.of_nat (S k) * interval >? timeout) eqn:Ht.
    + rewrite Z.gtb_ltb in Ht. apply Z.ltb_lt in Ht. lia.
    + destruct (IH (S k) fuel (cancellingAfterSleep w k)) as [ev Hev];
        [lia | lia | reflexivity |].
      rewrite Hev. eauto.
Qed.

(** With nobody cancelling and a service that keeps reporting Pending, the
    run ends in the timeout at the first sleep that carries [timer] past
    it. *)
Lemma pollLoop_times_out w jobId last
  (Hpend : forall j, getCodeScan w j = Status "Pending")
  (Hquery : forall j, cancellingAfterQuery w j = false)
  (Hsleep : forall j, (j < last)%nat -> cancellingAfterSleep w j = false)
  (Hin : forall j, (j < last)%nat -> (Z.of_nat j + 1) * interval <= timeout)
  (Hout : timeout < (Z.of_nat last + 1) * interval) :
  forall n k fuel,
  last = (k + n)%nat ->
  (n < fuel)%nat ->
  exists events,
    pollLoop fuel w jobId k false (Z.of_nat k * interval)
    = Some (Throw (Error "Scan job timeout."), events).
Proof.
  induction n as [|n IH]; intros k fuel Hk Hfuel;
    (destruct fuel as [|fuel]; [lia |]);
    rewrite pollLoop_pending by apply Hpend; rewrite Hquery;
    replace (Z.of_nat k * interval + interval)
      with ((Z.of_nat k + 1) * interval) by lia.
  - rewrite Nat.add_0_r in Hk. subst k.
    destruct (Z.gtb_spec ((Z.of_nat last + 1) * interval) timeout);
      [eauto | lia].
  - destruct (Z.gtb_spec ((Z.of_nat k + 1) * interval) timeout) as [Hgt|_].
    + specialize (Hin k). lia.
    + rewrite Hsleep by lia.
      destruct (IH (S k) fuel) as [ev Hev]; [lia | lia |].
      replace ((Z.of_nat k + 1) * interval)
        with (Z.of_nat (S k) * interval) by lia.
      rewrite Hev. eauto.
Qed.

End Loop.

(** ** The claims about the poller *)

(** C1, as the code has it. If the cancellation flag is true at a moment (on
    entry, when a status query settles, or when a sleep ends) by which every
    status reported is Pending and no sleep has yet carried the accumulated
    time past the timeout, the poller raises the scan-stopped condition and
    not the timeout, given fuel for the iterations up to that moment. *)
Theorem cancellation_seen_before_timeout_stops
    (interval timeout : Z) (w : World) (jobId : string) (m : Moment)
    (fuel : nat) :
  CancelledWhilePending w m ->
  (forall j, (j < sleepsEndedBy m)%nat ->
             (Z.of_nat j + 1) * interval <= timeout) ->
  (sleepsEndedBy m < fuel)%nat ->
  exists events,
    pollScanJobStatus interval timeout fuel w jobId
    = Some (Throw CodeScanStoppedError, events).
Proof.
  intros Hm Hin Hfuel. unfold pollScanJobStatus.
  change 0 with (Z.of_nat 0 * interval).
  apply (pollLoop_stops interval timeout w jobId m Hm Hin (sleepsEndedBy m));
    [reflexivity | exact Hfuel | reflexivity].
Qed.

Lemma cancellation_seen_before_timeout_stops_witness :
  exists events,
    pollScanJobStatus 1 50 2 worldCancelDuringSecondQuery "job-1"
    = Some (Throw CodeScanStoppedError, events).
Proof.
  apply (cancellation_seen_before_timeout_stops 1 50
           worldCancelDuringSecondQuery "job-1" (AfterQuery 1) 2).
  - split; [reflexivity | intros j _; reflexivity].
  - intros j Hj. cbn in Hj. lia.
  - cbn. lia.
Defined.

(** C1, as the spec words it, fails. With an interval of 1 and a timeout of
    1, the service reporting Pending throughout and the flag set during the
    second sleep, the flag is set before any status other than Pending is
    seen, yet the run ends in the timeout, whatever the fuel: the second
    sleep carries [timer] to 2, and the timeout check comes before the next
    cancellation check. *)
Lemma cancelled_during_last_sleep_times_out :
  CancelledWhilePending worldCancelDuringSecondSleep (AfterSleep 1)
  /\ pollScanJobStatus 1 1 2 worldCancelDuringSecondSleep "job-1"
     = Some (Throw (Error "Scan job timeout."),
             [EvGetCodeScan "job-1"; EvSleep 1000;
              EvGetCodeScan "job-1"; EvSleep 1000])
  /\ forall fuel events,
       pollScanJobStatus 1 1 fuel worldCancelDuringSecondSleep "job-1"
       <> Some (Throw CodeScanStoppedError, events).
Proof.
  split; [split; [reflexivity | intros j _; reflexivity] |].
  split; [reflexivity |].
  intros [|[|fuel]] events; discriminate.
Qed.

(** The same race exists for every positive interval and every timeout that
    is not negative. *)
Lemma timeout_wins_race (interval timeout : Z) :
  0 < interval -> 0 <= timeout ->
  exists w m,
    CancelledWhilePending w m
    /\ exists fuel events,
         pollScanJobStatus interval timeout fuel w "job-1"
         = Some (Throw (Error "Scan job timeout."), events).
Proof.
  intros Hpos Hnn.
  set (last := Z.to_nat (timeout / interval)).
  assert (Hlast : Z.of_nat last = timeout / interval)
    by (apply Z2Nat.id, Z.div_pos; lia).
  pose proof (Z.mul_div_le timeout interval Hpos) as Hlo.
  pose proof (Z.mul_succ_div_gt timeout interval Hpos) as Hhi.
  exists {| cancellingAtEntry := false;
            getCodeScan := fun _ => Status "Pending";
            cancellingAfterQuery := fun _ => false;
            cancellingAfterSleep := fun k => (last <=? k)%nat |},
         (AfterSleep last).
  split.
  - split; [cbn; apply Nat.leb_refl | intros j _; reflexivity].
  - exists (S last). unfold pollScanJobStatus. cbn [cancellingAtEntry].
    change 0 with (Z.of_nat 0 * interval).
    apply pollLoop_times_out with (last := last) (n := last);
      try (intros; reflexivity); try lia.
    + intros j Hj. cbn. apply Nat.leb_gt. exact Hj.
    + intros j Hj. nia.
Qed.

(** When the second wait does not fit in the timeout, the third status is
    never asked for: the run ends in the timeout after the second sleep. *)
Lemma second_wait_past_timeout
    (interval timeout : Z) (w : World) (jobId : string) (fuel : nat) :
  getCodeScan w 0 = Status "Pending" ->
  getCodeScan w 1 = Status "Pending" ->
  NeverCancelled w ->
  interval <= timeout < 2 * interval ->
  (2 <= fuel)%nat ->
  pollScanJobStatus interval timeout fuel w jobId
  = Some (Throw (Error "Scan job timeout."),
          [EvGetCodeScan jobId; EvSleep (interval * 1000);
           EvGetCodeScan jobId; EvSleep (interval * 1000)]).
Proof.
  intros H0 H1 Hnc Hi Hfuel.
  apply (pollLoop_fuel_le interval timeout 2 fuel); [exact Hfuel |].
  unfold pollScanJobStatus.
  rewrite (Hnc AtEntry : cancellingAtEntry w = false).
  rewrite pollLoop_pending by exact H0.
  rewrite (Hnc (AfterQuery 0) : cancellingAfterQuery w 0 = false).
  rewrite (Hnc (AfterSleep 0) : cancellingAfterSleep w 0 = false).
  destruct (Z.gtb_spec (0 + interval) timeout); [lia |].
  rewrite pollLoop_pending by exact H1.
  rewrite (Hnc (AfterQuery 1) : cancellingAfterQuery w 1 = false).
  destruct (Z.gtb_spec (0 + interval + interval) timeout); [| lia].
  reflexivity.
Qed.

(** C2. When the service reports Pending twice and then Completed and
    cancellation is never set, [pollScanJobStatus] queries three times,
    sleeps exactly twice, each time for the poll interval in milliseconds,
    and returns "Completed". The two waits must fit in the configured
    timeout. *)
Theorem two_pending_then_completed
    (interval timeout : Z) (w : World) (jobId : string) (fuel : nat) :
  getCodeScan w 0 = Status "Pending" ->
  getCodeScan w 1 = Status "Pending" ->
  getCodeScan w 2 = Status "Completed" ->
  NeverCancelled w ->
  interval <= timeout ->
  2 * interval <= timeout ->
  (3 <= fuel)%nat ->
  pollScanJobStatus interval timeout fuel w jobId
  = Some (Return "Completed",
          [EvGetCodeScan jobId; EvSleep (interval * 1000);
           EvGetCodeScan jobId; EvSleep (interval * 1000);
           EvGetCodeScan jobId]).
Proof.
  intros H0 H1 H2 Hnc Hi1 Hi2 Hfuel.
  apply (pollLoop_fuel_le interval timeout 3 fuel); [exact Hfuel |].
  unfold pollScanJobStatus.
  rewrite (Hnc AtEntry : cancellingAtEntry w = false).
  rewrite pollLoop_pending by exact H0.
  rewrite (Hnc (AfterQuery 0) : cancellingAfterQuery w 0 = false).
  rewrite (Hnc (AfterSleep 0) : cancellingAfterSleep w 0 = false).
  destruct (Z.gtb_spec (0 + interval) timeout); [lia |].
  rewrite pollLoop_pending by exact H1.
  rewrite (Hnc (AfterQuery 1) : cancellingAfterQuery w 1 = false).
  rewrite (Hnc (AfterSleep 1) : cancellingAfterSleep w 1 = false).
  destruct (Z.gtb_spec (0 + interval + interval) timeout); [lia |].
  rewrite (pollLoop_settled interval timeout _ _ _ _ _ "Completed" H2)
    by discriminate.
  reflexivity.
Qed.

Lemma two_pending_then_completed_witness :
  pollScanJobStatus 1 50 3 worldTwoPending "job-1"
  = Some (Return "Completed",
          [EvGetCodeScan "job-1"; EvSleep (1 * 1000);
           EvGetCodeScan "job-1"; EvSleep (1 * 1000);
           EvGetCodeScan "job-1"]).
Proof.
  apply (two_pending_then_completed 1 50 worldTwoPending "job-1" 3).
  - reflexivity.
  - reflexivity.
  - reflexivity.
  - intros [|k|k]; reflexivity.
  - lia.
  - lia.
  - lia.
Defined.

(** C10. When [pollScanJobStatus] returns normally, the status it returns is
    not "Pending": it is the first status other than Pending that the
    service reported, every earlier report being Pending. *)
Theorem returned_status_is_first_non_pending
    (interval timeout : Z) (fuel : nat) (w : World) (jobId status : string)
    (events : list Event) :
  pollScanJobStatus interval timeout fuel w jobId
  = Some (Return status, events) ->
  status <> "Pending"%string
  /\ exists n,
       getCodeScan w n = Status status
       /\ forall j, (j < n)%nat -> getCodeScan w j = Status "Pending".
Proof.
  intros H. apply pollLoop_returns in H as [Hne [n [_ [Hn Hbefore]]]].
  split; [exact Hne |].
  exists n. split; [exact Hn |]. intros j Hj. apply Hbefore. lia.
Qed.

Lemma returned_status_is_first_non_pending_witness :
  "Completed"%string <> "Pending"%string
  /\ exists n,
       getCodeScan worldTwoPending n = Status "Completed"
       /\ forall j, (j < n)%nat ->
                    getCodeScan worldTwoPending j = Status "Pending".
Proof.
  apply (returned_status_is_first_non_pending 1 50 3 worldTwoPending
           "job-1" "Completed"
           [EvGetCodeScan "job-1"; EvSleep 1000;
            EvGetCodeScan "job-1"; EvSleep 1000;
            EvGetCodeScan "job-1"]).
  reflexivity.
Defined.

End PollerFacts.

(** * Whole runs of the scan status poller *)

Module PollerRuns.
Import Poller PollerFacts.

Section Runs.

Variable interval : Z.
Variable timeout : Z.

Local Abbreviation pollLoop := (pollLoop interval timeout).
Local Abbreviation pollScanJobStatus := (pollScanJobStatus interval timeout).

Lemma rounds_app jobId n m :
  rounds jobId interval (n + m)
  = rounds jobId interval n ++ rounds jobId interval m.
Proof. induction n as [|n IH]; cbn; [reflexivity | now rewrite IH]. Qed.

Lemma queries_rounds jobId n : queries (rounds jobId interval n) = n.
Proof.
  unfold queries. induction n as [|n IH]; cbn; [reflexivity | now rewrite IH].
Qed.

Lemma queries_app (l1 l2 : list Event) :
  queries (l1 ++ l2) = (queries l1 + queries l2)%nat.
Proof. unfold queries. now rewrite filter_app, length_app. Qed.

(** [n] rounds in which the service says Pending, nobody cancels and the
    timeout is not passed: the loop goes through them and carries on. *)
Lemma pollLoop_rounds w jobId n : forall k fuel timer,
  (forall j, (k <= j < k + n)%nat ->
     getCodeScan w j = Status "Pending"
     /\ cancellingAfterQuery w j = false
     /\ cancellingAfterSleep w j = false) ->
  (forall i, (1 <= i <= n)%nat -> timer + Z.of_nat i * interval <= timeout) ->
  pollLoop (n + fuel) w jobId k false timer
  = match pollLoop fuel w jobId (k + n) false
            (timer + Z.of_nat n * interval) with
    | Some (outcome, events) =>
      Some (outcome, rounds jobId interval n ++ events)
    | None => None
    end.
Proof.
  induction n as [|n IH]; intros k fuel timer Hw Ht.
  - cbn [Nat.add rounds app]. rewrite Nat.add_0_r.
    replace (timer + Z.of_nat 0 * interval) with timer by lia.
    now destruct (pollLoop fuel w jobId k false timer) as [[o ev]|].
  - destruct (Hw k ltac:(lia)) as [Hp [Hq Hs]].
    cbn [Nat.add]. rewrite pollLoop_pending by exact Hp. rewrite Hq, Hs.
    destruct (Z.gtb_spec (timer + interval) timeout) as [Hgt|_].
    + specialize (Ht 1%nat ltac:(lia)). lia.
    + rewrite IH.
      * replace (S k + n)%nat with (k + S n)%nat by lia.
        replace (timer + interval + Z.of_nat n * interval)
          with (timer + Z.of_nat (S n) * interval) by lia.
        now destruct (pollLoop fuel w jobId (k + S n) false
                        (timer + Z.of_nat (S n) * interval)) as [[o ev]|].
      * intros j Hj. apply Hw. lia.
      * intros i Hi. specialize (Ht (S i) ltac:(lia)). lia.
Qed.

(** The shape of a run that returns, read back from its result. *)
Lemma pollLoop_returned_shape fuel :
  forall w jobId k c timer status events,
  pollLoop fuel w jobId k c timer = Some (Return status, events) ->
  exists n,
    events = rounds jobId interval n ++ [EvGetCodeScan jobId]
    /\ getCodeScan w (k + n) = Status status
    /\ forall i, (1 <= i <= n)%nat ->
                 timer + Z.of_nat i * interval <= timeout.
Proof.
  induction fuel as [|fuel IH]; intros w jobId k c timer status events H;
    [discriminate |].
  rewrite pollLoop_S in H.
  destruct c; cbn [throwIfCancelled] in H; [discriminate |].
  destruct (getCodeScan w k) as [st|e] eqn:Hq; [| discriminate].
  destruct (String.eqb_spec st "Pending") as [->|Hne]; cbn [negb] in H.
  - destruct (cancellingAfterQuery w k); cbn [throwIfCancelled] in H;
      [discriminate |].
    destruct (Z.gtb_spec (timer + interval) timeout) as [|Hle];
      [discriminate |].
    destruct (Poller.pollLoop interval timeout fuel w jobId (S k)
                (cancellingAfterSleep w k) (timer + interval))
      as [[o ev]|] eqn:Hrec; [| discriminate].
    injection H as -> <-.
    destruct (IH _ _ _ _ _ _ _ Hrec) as [n [-> [Hn Hin]]].
    exists (S n). split; [reflexivity |]. split.
    + now replace (k + S n)%nat with (S k + n)%nat by lia.
    + intros i Hi. destruct (Nat.eq_dec i 1) as [->|Hi1]; [lia |].
      specialize (Hin (i - 1)%nat ltac:(lia)). lia.
  - injection H as <- <-. exists 0%nat. split; [reflexivity |].
    split; [now rewrite Nat.add_0_r | intros i Hi; lia].
Qed.

(** No run asks for the status more often than the timeout allows. *)
Lemma pollLoop_queries_bound (Hpos : 0 < interval) fuel :
  forall w jobId k c timer outcome events,
  pollLoop fuel w jobId k c timer = Some (outcome, events) ->
  (queries events <= Z.to_nat ((timeout - timer) / interval) + 1)%nat.
Proof.
  induction fuel as [|fuel IH]; intros w jobId k c timer outcome events H;
    [discriminate |].
  rewrite pollLoop_S in H.
  destruct (throwIfCancelled c);
    [| injection H as _ <-; cbn; lia].
  destruct (getCodeScan w k) as [st|e];
    [| injection H as _ <-; cbn; lia].
  destruct (negb (st =? "Pending")%string);
    [injection H as _ <-; cbn; lia |].
  destruct (throwIfCancelled (cancellingAfterQuery w k));
    [| injection H as _ <-; cbn; lia].
  destruct (Z.gtb_spec (timer + interval) timeout) as [|Hle];
    [injection H as _ <-; cbn; lia |].
  destruct (Poller.pollLoop interval timeout fuel w jobId (S k)
              (cancellingAfterSleep w k) (timer + interval))
    as [[o ev]|] eqn:Hrec; [| discriminate].
  injection H as _ <-. apply IH in Hrec.
  change (queries (EvGetCodeScan jobId :: EvSleep (interval * 1000) :: ev))
    with (S (queries ev)).
  assert (Hdiv : (timeout - timer) / interval
                 = (timeout - (timer + interval)) / interval + 1).
  { replace (timeout - timer)
      with ((timeout - (timer + interval)) + 1 * interval) by lia.
    apply Z.div_add. lia. }
  assert (0 <= (timeout - (timer + interval)) / interval)
    by (apply Z.div_pos; lia).
  lia.
Qed.

(** Why a run stopped, read back from its result. *)
Lemma pollLoop_stopped_cause fuel :
  forall w jobId k c timer events,
  pollLoop fuel w jobId k c timer
  = Some (Throw CodeScanStoppedError, events) ->
  c = true
  \/ exists n,
       (k <= n)%nat
       /\ (forall j, (k <= j < n)%nat -> getCodeScan w j = Status "Pending")
       /\ (getCodeScan w n = Rejected CodeScanStoppedError
           \/ (getCodeScan w n = Status "Pending"
               /\ (cancellingAfterQuery w n = true
                   \/ cancellingAfterSleep w n = true))).
Proof.
  induction fuel as [|fuel IH]; intros w jobId k c timer events H;
    [discriminate |].
  rewrite pollLoop_S in H.
  destruct c; [now left |]. right. cbn [throwIfCancelled] in H.
  destruct (getCodeScan w k) as [st|e] eqn:Hq.
  - destruct (String.eqb_spec st "Pending") as [->|Hne]; cbn [negb] in H;
      [| discriminate].
    destruct (cancellingAfterQuery w k) eqn:Hc; cbn [throwIfCancelled] in H.
    + exists k. split; [lia |]. split; [intros j Hj; lia |]. auto.
    + destruct (timer + interval >? timeout); [discriminate |].
      destruct (Poller.pollLoop interval timeout fuel w jobId (S k)
                  (cancellingAfterSleep w k) (timer + interval))
        as [[o ev]|] eqn:Hrec; [| discriminate].
      injection H as -> _.
      destruct (IH _ _ _ _ _ _ Hrec) as [Hs|[n [Hle [Hbefore Hn]]]].
      * exists k. split; [lia |]. split; [intros j Hj; lia |]. auto.
      * exists n. split; [lia |]. split; [| exact Hn].
        intros j Hj. destruct (Nat.eq_dec j k) as [->|Hjk]; [exact Hq |].
        apply Hbefore. lia.
  - injection H as -> _. exists k. split; [lia |].
    split; [intros j Hj; lia |]. auto.
Qed.

(** Why a run ended in an [Error], read back from its result. *)
Lemma pollLoop_error_cause fuel :
  forall w jobId k c timer message events,
  pollLoop fuel w jobId k c timer = Some (Throw (Error message), events) ->
  exists n,
    (forall j, (k <= j < k + n)%nat -> getCodeScan w j = Status "Pending")
    /\ ((getCodeScan w (k + n) = Rejected (Error message)
         /\ events = rounds jobId interval n ++ [EvGetCodeScan jobId])
        \/ (message = "Scan job timeout."%string
            /\ getCodeScan w (k + n) = Status "Pending"
            /\ events = rounds jobId interval (S n)
            /\ timeout < timer + Z.of_nat (S n) * interval)).
Proof.
  induction fuel as [|fuel IH]; intros w jobId k c timer message events H;
    [discriminate |].
  rewrite pollLoop_S in H.
  destruct c; cbn [throwIfCancelled] in H; [discriminate |].
  destruct (getCodeScan w k) as [st|e] eqn:Hq.
  - destruct (String.eqb_spec st "Pending") as [->|Hne]; cbn [negb] in H;
      [| discriminate].
    destruct (cancellingAfterQuery w k); cbn [throwIfCancelled] in H;
      [discriminate |].
    destruct (Z.gtb_spec (timer + interval) timeout) as [Hgt|Hle].
    + injection H as <- <-. exists 0%nat. rewrite Nat.add_0_r.
      split; [intros j Hj; lia |]. right.
      repeat split; [exact Hq | lia].
    + destruct (Poller.pollLoop interval timeout fuel w jobId (S k)
                  (cancellingAfterSleep w k) (timer + interval))
        as [[o ev]|] eqn:Hrec; [| discriminate].
      injection H as -> <-.
      destruct (IH _ _ _ _ _ _ _ Hrec) as [n [Hbefore Hn]].
      exists (S n). replace (k + S n)%nat with (S k + n)%nat by lia.
      split.
      * intros j Hj. destruct (Nat.eq_dec j k) as [->|Hjk]; [exact Hq |].
        apply Hbefore. lia.
      * destruct Hn as [[Hr ->]|[-> [Hp [-> Ht]]]].
        -- left. split; [exact Hr | reflexivity].
        -- right. repeat split; [exact Hp | lia].
  - injection H as -> <-. exists 0%nat. rewrite Nat.add_0_r.
    split; [intros j Hj; lia |]. left. split; [exact Hq | reflexivity].
Qed.

End Runs.

(** X1. A service that keeps reporting Pending, with nobody cancelling: the
    run ends in the timeout error, after exactly [timeout / interval + 1]
    rounds of one query and one sleep. *)
Theorem always_pending_times_out
    (interval timeout : Z) (w : World) (jobId : string) (fuel : nat) :
  0 < interval -> 0 <= timeout ->
  (forall j, getCodeScan w j = Status "Pending") ->
  NeverCancelled w ->
  (Z.to_nat (timeout / interval) < fuel)%nat ->
  pollScanJobStatus interval timeout fuel w jobId
  = Some (Throw (Error "Scan job timeout."),
          rounds jobId interval (S (Z.to_nat (timeout / interval)))).
Proof.
  intros Hpos Hnn Hpend Hnc Hfuel.
  set (n := Z.to_nat (timeout / interval)) in *.
  assert (Hn : Z.of_nat n = timeout / interval)
    by (apply Z2Nat.id, Z.div_pos; lia).
  pose proof (Z.mul_div_le timeout interval Hpos) as Hlo.
  pose proof (Z.mul_succ_div_gt timeout interval Hpos) as Hhi.
  apply (pollLoop_fuel_le interval timeout (n + 1) fuel); [lia |].
  unfold pollScanJobStatus.
  rewrite (Hnc AtEntry : cancellingAtEntry w = false).
  rewrite pollLoop_rounds.
  - cbn [Nat.add]. rewrite pollLoop_pending by apply Hpend.
    rewrite (Hnc (AfterQuery n) : cancellingAfterQuery w n = false).
    destruct (Z.gtb_spec (0 + Z.of_nat n * interval + interval) timeout);
      [| nia].
    replace (S n) with (n + 1)%nat by lia. now rewrite rounds_app.
  - intros j _. split; [apply Hpend |].
    split; [exact (Hnc (AfterQuery j)) | exact (Hnc (AfterSleep j))].
  - intros i Hi. nia.
Qed.

Lemma always_pending_times_out_witness :
  pollScanJobStatus 2 5 3 worldAlwaysPending "job-1"
  = Some (Throw (Error "Scan job timeout."),
          rounds "job-1" 2 (S (Z.to_nat (5 / 2)))).
Proof.
  apply (always_pending_times_out 2 5 worldAlwaysPending "job-1" 3).
  - lia.
  - lia.
  - intros j. reflexivity.
  - intros [|k|k]; reflexivity.
  - vm_compute. lia.
Defined.

(** X2. After [n] Pending reports the service reports another status: with
    nobody cancelling and the [n] waits fitting in the timeout, the poller
    returns that status after exactly [n] sleeps and [n + 1] queries. *)
Theorem settles_after_n_pending
    (interval timeout : Z) (w : World) (jobId status : string)
    (n fuel : nat) :
  (forall j, (j < n)%nat -> getCodeScan w j = Status "Pending") ->
  getCodeScan w n = Status status ->
  status <> "Pending"%string ->
  NeverCancelled w ->
  (forall i, (1 <= i <= n)%nat -> Z.of_nat i * interval <= timeout) ->
  (n < fuel)%nat ->
  pollScanJobStatus interval timeout fuel w jobId
  = Some (Return status,
          rounds jobId interval n ++ [EvGetCodeScan jobId]).
Proof.
  intros Hpend Hn Hne Hnc Hin Hfuel.
  apply (pollLoop_fuel_le interval timeout (n + 1) fuel); [lia |].
  unfold pollScanJobStatus.
  rewrite (Hnc AtEntry : cancellingAtEntry w = false).
  rewrite pollLoop_rounds.
  - cbn [Nat.add].
    now rewrite (pollLoop_settled interval timeout _ _ _ _ _ status Hn Hne).
  - intros j Hj. split; [apply Hpend; lia |].
    split; [exact (Hnc (AfterQuery j)) | exact (Hnc (AfterSleep j))].
  - intros i Hi. specialize (Hin i Hi). lia.
Qed.

Lemma settles_after_n_pending_witness :
  pollScanJobStatus 1 50 4 worldThreePendingThenFailed "job-1"
  = Some (Return "Failed",
          rounds "job-1" 1 3 ++ [EvGetCodeScan "job-1"]).
Proof.
  apply (settles_after_n_pending 1 50 worldThreePendingThenFailed "job-1"
           "Failed" 3 4).
  - intros [|[|[|j]]] Hj; [reflexivity | reflexivity | reflexivity | lia].
  - reflexivity.
  - discriminate.
  - intros [|k|k]; reflexivity.
  - intros i Hi. lia.
  - lia.
Defined.

(** X3. After [n] Pending reports a status query is rejected: with nobody
    cancelling and the [n] waits fitting in the timeout, the poller throws
    the error of the rejected query as it is, and asks no more. *)
Theorem rejected_query_is_rethrown
    (interval timeout : Z) (w : World) (jobId : string) (e : Exception)
    (n fuel : nat) :
  (forall j, (j < n)%nat -> getCodeScan w j = Status "Pending") ->
  getCodeScan w n = Rejected e ->
  NeverCancelled w ->
  (forall i, (1 <= i <= n)%nat -> Z.of_nat i * interval <= timeout) ->
  (n < fuel)%nat ->
  pollScanJobStatus interval timeout fuel w jobId
  = Some (Throw e, rounds jobId interval n ++ [EvGetCodeScan jobId]).
Proof.
  intros Hpend Hn Hnc Hin Hfuel.
  apply (pollLoop_fuel_le interval timeout (n + 1) fuel); [lia |].
  unfold pollScanJobStatus.
  rewrite (Hnc AtEntry : cancellingAtEntry w = false).
  rewrite pollLoop_rounds.
  - cbn [Nat.add]. rewrite pollLoop_S. cbn [throwIfCancelled].
    now rewrite Hn.
  - intros j Hj. split; [apply Hpend; lia |].
    split; [exact (Hnc (AfterQuery j)) | exact (Hnc (AfterSleep j))].
  - intros i Hi. specialize (Hin i Hi). lia.
Qed.

Lemma rejected_query_is_rethrown_witness :
  pollScanJobStatus 1 50 2 worldThrottled "job-1"
  = Some (Throw (External "ThrottlingException"),
          rounds "job-1" 1 1 ++ [EvGetCodeScan "job-1"]).
Proof.
  apply (rejected_query_is_rethrown 1 50 worldThrottled "job-1"
           (External "ThrottlingException") 1 2).
  - intros [|j] Hj; [reflexivity | lia].
  - reflexivity.
  - intros [|k|k]; reflexivity.
  - intros i Hi. lia.
  - lia.
Defined.

(** X4. With a positive poll interval every run ends, whatever the service
    and the user do, and it has asked for the status at most
    [timeout / interval + 1] times. *)
Theorem run_ends_within_bound
    (interval timeout : Z) (w : World) (jobId : string) (fuel : nat) :
  0 < interval ->
  (Z.to_nat (timeout / interval) < fuel)%nat ->
  exists outcome events,
    pollScanJobStatus interval timeout fuel w jobId = Some (outcome, events)
    /\ (queries events <= Z.to_nat (timeout / interval) + 1)%nat.
Proof.
  intros Hpos Hfuel.
  destruct (pollLoop_terminates interval timeout Hpos fuel w jobId 0%nat
              (cancellingAtEntry w) 0) as [[outcome events] Hr]; [lia | |].
  - destruct (Z.le_gt_cases 0 timeout) as [Hnn|Hneg].
    + pose proof (Z.mul_succ_div_gt timeout interval Hpos).
      assert (0 <= timeout / interval) by (apply Z.div_pos; lia). nia.
    + nia.
  - exists outcome, events. split; [exact Hr |].
    apply (pollLoop_queries_bound interval timeout Hpos) in Hr.
    now rewrite Z.sub_0_r in Hr.
Qed.

Lemma run_ends_within_bound_witness :
  exists outcome events,
    pollScanJobStatus 2 5 3 worldCancelDuringSecondSleep "job-1"
    = Some (outcome, events)
    /\ (queries events <= Z.to_nat (5 / 2) + 1)%nat.
Proof.
  apply (run_ends_within_bound 2 5 worldCancelDuringSecondSleep "job-1" 3).
  - lia.
  - vm_compute. lia.
Defined.

(** X5. A run that returns a status has the shape of [n] rounds of one
    query and one sleep followed by one last query; the status returned is
    the answer to that query, and none of the [n] waits had carried the
    accumulated time past the timeout. *)
Theorem returned_run_shape
    (interval timeout : Z) (w : World) (jobId status : string)
    (fuel : nat) (events : list Event) :
  pollScanJobStatus interval timeout fuel w jobId
  = Some (Return status, events) ->
  exists n,
    events = rounds jobId interval n ++ [EvGetCodeScan jobId]
    /\ getCodeScan w n = Status status
    /\ forall i, (1 <= i <= n)%nat -> Z.of_nat i * interval <= timeout.
Proof.
  intros H. apply pollLoop_returned_shape in H as [n [He [Hn Hin]]].
  exists n. split; [exact He |]. split; [exact Hn |].
  intros i Hi. specialize (Hin i Hi). lia.
Qed.

Lemma returned_run_shape_witness :
  exists n,
    rounds "job-1" 1 3 ++ [EvGetCodeScan "job-1"]
    = rounds "job-1" 1 n ++ [EvGetCodeScan "job-1"]
    /\ getCodeScan worldThreePendingThenFailed n = Status "Failed"
    /\ forall i, (1 <= i <= n)%nat -> Z.of_nat i * 1 <= 50.
Proof.
  apply (returned_run_shape 1 50 worldThreePendingThenFailed "job-1"
           "Failed" 4).
  reflexivity.
Defined.

(** X24. The poller never stops on its own account: when it throws the
    scan-stopped error, either the cancellation flag was true at a moment
    by which every status reported was Pending, or the service itself
    rejected a status query with that error after reporting Pending
    throughout. *)
Theorem stop_has_a_cause
    (interval timeout : Z) (w : World) (jobId : string) (fuel : nat)
    (events : list Event) :
  pollScanJobStatus interval timeout fuel w jobId
  = Some (Throw CodeScanStoppedError, events) ->
  (exists m, CancelledWhilePending w m)
  \/ (exists n,
        getCodeScan w n = Rejected CodeScanStoppedError
        /\ forall j, (j < n)%nat -> getCodeScan w j = Status "Pending").
Proof.
  intros H. apply pollLoop_stopped_cause in H as [Hc|[n [_ [Hbefore Hn]]]].
  - left. exists AtEntry. split; [exact Hc | intros j Hj; cbn in Hj; lia].
  - assert (Hb : forall j, (j < n)%nat -> getCodeScan w j = Status "Pending")
      by (intros j Hj; apply Hbefore; lia).
    destruct Hn as [Hr|[Hp [Hq|Hs]]].
    + right. eauto.
    + left. exists (AfterQuery n). split; [exact Hq |].
      intros j Hj. cbn in Hj.
      destruct (Nat.eq_dec j n) as [->|]; [exact Hp | apply Hb; lia].
    + left. exists (AfterSleep n). split; [exact Hs |].
      intros j Hj. cbn in Hj.
      destruct (Nat.eq_dec j n) as [->|]; [exact Hp | apply Hb; lia].
Qed.

Lemma stop_has_a_cause_witness :
  (exists m, CancelledWhilePending worldCancelDuringSecondQuery m)
  \/ (exists n,
        getCodeScan worldCancelDuringSecondQuery n
        = Rejected CodeScanStoppedError
        /\ forall j, (j < n)%nat ->
                     getCodeScan worldCancelDuringSecondQuery j
                     = Status "Pending").
Proof.
  apply (stop_has_a_cause 1 50 worldCancelDuringSecondQuery "job-1" 2
           [EvGetCodeScan "job-1"; EvSleep 1000; EvGetCodeScan "job-1"]).
  reflexivity.
Defined.

(** X25. When the poller throws a plain error, either the service rejected
    a status query with that error after [n] Pending reports and [n]
    sleeps, or the error is the timeout: the service has reported Pending
    [n + 1] times, the run is [n + 1] rounds of one query and one sleep, and
    the last sleep carried the accumulated time past the timeout. *)
Theorem error_has_a_cause
    (interval timeout : Z) (w : World) (jobId message : string)
    (fuel : nat) (events : list Event) :
  pollScanJobStatus interval timeout fuel w jobId
  = Some (Throw (Error message), events) ->
  exists n,
    (forall j, (j < n)%nat -> getCodeScan w j = Status "Pending")
    /\ ((getCodeScan w n = Rejected (Error message)
         /\ events = rounds jobId interval n ++ [EvGetCodeScan jobId])
        \/ (message = "Scan job timeout."%string
            /\ getCodeScan w n = Status "Pending"
            /\ events = rounds jobId interval (S n)
            /\ timeout < Z.of_nat (S n) * interval)).
Proof.
  intros H. apply pollLoop_error_cause in H as [n [Hbefore Hn]].
  exists n. split; [intros j Hj; apply Hbefore; lia |].
  cbn [Nat.add] in Hn.
  destruct Hn as [Hr|[Hm [Hp [He Ht]]]]; [now left |].
  right. repeat split; assumption.
Qed.

Lemma error_has_a_cause_witness :
  exists n,
    (forall j, (j < n)%nat ->
               getCodeScan worldAlwaysPending j = Status "Pending")
    /\ ((getCodeScan worldAlwaysPending n
         = Rejected (Error "Scan job timeout.")
         /\ rounds "job-1" 2 3
            = rounds "job-1" 2 n ++ [EvGetCodeScan "job-1"])
        \/ ("Scan job timeout."%string = "Scan job timeout."%string
            /\ getCodeScan worldAlwaysPending n = Status "Pending"
            /\ rounds "job-1" 2 3 = rounds "job-1" 2 (S n)
            /\ 5 < Z.of_nat (S n) * 2)).
Proof.
  apply (error_has_a_cause 2 5 worldAlwaysPending "job-1"
           "Scan job timeout." 3).
  reflexivity.
Defined.

End PollerRuns.

(** * Properties of the result aggregator *)

Module AggregatorFacts.
Import Aggregator.

(** ** The map *)

Lemma existsb_eqb_In (key : string) (seen : list string) :
  existsb (String.eqb key) seen = true <-> In key seen.
Proof.
  rewrite existsb_exists. split.
  - intros [x [Hin Heq]]. apply String.eqb_eq in Heq. now subst.
  - intros Hin. exists key. split; [exact Hin | apply String.eqb_refl].
Qed.

Lemma Map_has_In (m : CodeScanIssueMap) (key : string) :
  Map_has m key = true <-> In key (Map_keys m).
Proof.
  unfold Map_has, Map_keys. rewrite existsb_exists, in_map_iff. split.
  - intros [e [Hin Heq]]. apply String.eqb_eq in Heq. eauto.
  - intros [e [Heq Hin]]. exists e. split; [exact Hin |].
    now apply String.eqb_eq.
Qed.

Lemma Map_has_not_In (m : CodeScanIssueMap) (key : string) :
  Map_has m key = false <-> ~ In key (Map_keys m).
Proof.
  rewrite <- Map_has_In. destruct (Map_has m key); split; congruence.
Qed.

Lemma Map_set_fresh (m : CodeScanIssueMap) key value :
  ~ In key (Map_keys m) -> Map_set m key value = m ++ [(key, value)].
Proof.
  induction m as [|[k v] m IH]; intros Hn; cbn; [reflexivity |].
  destruct (String.eqb_spec k key) as [->|Hne].
  - exfalso. apply Hn. now left.
  - rewrite IH; [reflexivity |]. intros Hin. apply Hn. now right.
Qed.

Lemma pushTo_absent (issue : RawCodeScanIssue.t) (m : CodeScanIssueMap) :
  ~ In (RawCodeScanIssue.filePath issue) (Map_keys m) ->
  map (pushTo issue) m = m.
Proof.
  induction m as [|[k v] m IH]; intros Hn; cbn; [reflexivity |].
  unfold pushTo at 1. cbn [fst snd].
  destruct (String.eqb_spec k (RawCodeScanIssue.filePath issue)) as [->|Hne].
  - exfalso. apply Hn. now left.
  - rewrite IH; [reflexivity |]. intros Hin. apply Hn. now right.
Qed.

Lemma Map_get_set_present (issue : RawCodeScanIssue.t) (m : CodeScanIssueMap) :
  NoDup (Map_keys m) ->
  In (RawCodeScanIssue.filePath issue) (Map_keys m) ->
  exists list,
    Map_get m (RawCodeScanIssue.filePath issue) = Some list
    /\ Map_set m (RawCodeScanIssue.filePath issue) (list ++ [issue])
       = map (pushTo issue) m.
Proof.
  induction m as [|[k v] m IH]; intros Hnd Hin; [destruct Hin |].
  cbn in Hnd. inversion Hnd as [|? ? Hk Hnd']; subst.
  cbn [Map_get Map_set map]. unfold pushTo at 1. cbn [fst snd].
  destruct (String.eqb_spec k (RawCodeScanIssue.filePath issue)) as [Heq|Hne].
  - exists v. split; [reflexivity |].
    rewrite pushTo_absent; [reflexivity |]. now rewrite <- Heq.
  - destruct IH as [list [Hget Hset]]; [exact Hnd' | |].
    + destruct Hin as [Hin|Hin]; [cbn in Hin; congruence | exact Hin].
    + exists list. split; [exact Hget |]. now rewrite Hset.
Qed.

Lemma groupIssue_present (issue : RawCodeScanIssue.t) (m : CodeScanIssueMap) :
  NoDup (Map_keys m) ->
  In (RawCodeScanIssue.filePath issue) (Map_keys m) ->
  groupIssue m issue = map (pushTo issue) m.
Proof.
  intros Hnd Hin. unfold groupIssue.
  rewrite (proj2 (Map_has_In _ _) Hin).
  destruct (Map_get_set_present issue m Hnd Hin) as [list [-> Hset]].
  exact Hset.
Qed.

Lemma groupIssue_fresh (issue : RawCodeScanIssue.t) (m : CodeScanIssueMap) :
  ~ In (RawCodeScanIssue.filePath issue) (Map_keys m) ->
  groupIssue m issue = m ++ [(RawCodeScanIssue.filePath issue, [issue])].
Proof.
  intros Hn. unfold groupIssue.
  rewrite (proj2 (Map_has_not_In _ _) Hn). now apply Map_set_fresh.
Qed.

Lemma Map_keys_pushTo (issue : RawCodeScanIssue.t) (m : CodeScanIssueMap) :
  Map_keys (map (pushTo issue) m) = Map_keys m.
Proof.
  unfold Map_keys. rewrite map_map. apply map_ext.
  intros [k v]. unfold pushTo. cbn. now destruct (k =? _)%string.
Qed.

(** ** Distinct keys *)

Lemma distinctFrom_In (keys seen : list string) (key : string) :
  In key (distinctFrom seen keys) <-> In key keys /\ ~ In key seen.
Proof.
  revert seen; induction keys as [|k keys IH]; intros seen; cbn.
  - tauto.
  - destruct (existsb (String.eqb k) seen) eqn:Hs.
    + apply existsb_eqb_In in Hs. rewrite IH. split.
      * tauto.
      * intros [[->|Hin] Hn]; tauto.
    + assert (Hk : ~ In k seen)
        by (rewrite <- existsb_eqb_In; congruence).
      cbn. rewrite IH, in_app_iff. cbn. split.
      * intros [->|[Hin Hn]]; tauto.
      * intros [[->|Hin] Hn]; [now left |].
        destruct (String.eqb_spec k key) as [->|Hne]; [now left |].
        right. split; [exact Hin |]. intros [H|[H|[]]]; tauto.
Qed.

Lemma distinctFrom_NoDup (keys seen : list string) :
  NoDup seen -> NoDup (seen ++ distinctFrom seen keys).
Proof.
  revert seen; induction keys as [|k keys IH]; intros seen Hnd; cbn.
  - now rewrite app_nil_r.
  - destruct (existsb (String.eqb k) seen) eqn:Hs; [now apply IH |].
    assert (Hk : ~ In k seen)
      by (rewrite <- existsb_eqb_In; congruence).
    change (k :: distinctFrom (seen ++ [k]) keys)
      with ([k] ++ distinctFrom (seen ++ [k]) keys).
    rewrite app_assoc. apply IH.
    apply NoDup_app; repeat split; trivial.
    + constructor; [intros [] | constructor].
    + intros x Hx [<-|[]]. tauto.
Qed.

(** ** Grouping a page *)

Lemma findingsFor_cons_same (issue : RawCodeScanIssue.t) page :
  findingsFor (RawCodeScanIssue.filePath issue) (issue :: page)
  = issue :: findingsFor (RawCodeScanIssue.filePath issue) page.
Proof. unfold findingsFor. cbn. now rewrite String.eqb_refl. Qed.

Lemma findingsFor_cons_other (issue : RawCodeScanIssue.t) page key :
  key <> RawCodeScanIssue.filePath issue ->
  findingsFor key (issue :: page) = findingsFor key page.
Proof.
  intros Hne. unfold findingsFor. cbn.
  destruct (String.eqb_spec (RawCodeScanIssue.filePath issue) key);
    [congruence | reflexivity].
Qed.

(** The map after a page: every entry it had, grown by the page's findings
    for its key, then one entry per new key, in order of first
    occurrence. *)
Lemma fold_groupIssue (page : list RawCodeScanIssue.t) :
  forall m : CodeScanIssueMap,
  NoDup (Map_keys m) ->
  fold_left groupIssue page m
  = map (fun entry => (fst entry, snd entry ++ findingsFor (fst entry) page)) m
    ++ map (fun key => (key, findingsFor key page))
           (distinctFrom (Map_keys m) (map RawCodeScanIssue.filePath page)).
Proof.
  induction page as [|issue page IH]; intros m Hnd.
  - cbn. rewrite app_nil_r. rewrite <- (map_id m) at 1. apply map_ext.
    intros [k v]. cbn. now rewrite app_nil_r.
  - cbn [fold_left map distinctFrom].
    destruct (existsb (String.eqb (RawCodeScanIssue.filePath issue))
                (Map_keys m)) eqn:Hs.
    + apply existsb_eqb_In in Hs.
      rewrite groupIssue_present by assumption.
      rewrite IH by (now rewrite Map_keys_pushTo).
      rewrite Map_keys_pushTo, map_map. f_equal.
      * apply map_ext. intros [k v]. unfold pushTo. cbn [fst snd].
        destruct (String.eqb_spec k (RawCodeScanIssue.filePath issue))
          as [->|Hne]; cbn [fst snd].
        -- now rewrite findingsFor_cons_same, <- app_assoc.
        -- now rewrite findingsFor_cons_other.
      * apply map_ext_in. intros key Hkey.
        apply distinctFrom_In in Hkey as [_ Hn].
        rewrite findingsFor_cons_other; [reflexivity |]. congruence.
    + assert (Hk : ~ In (RawCodeScanIssue.filePath issue) (Map_keys m))
        by (rewrite <- existsb_eqb_In; congruence).
      rewrite groupIssue_fresh by assumption.
      assert (Hkeys : Map_keys (m ++ [(RawCodeScanIssue.filePath issue, [issue])])
                      = Map_keys m ++ [RawCodeScanIssue.filePath issue])
        by (unfold Map_keys; now rewrite map_app).
      rewrite IH.
      2:{ rewrite Hkeys. apply NoDup_app; repeat split; trivial.
          - constructor; [intros [] | constructor].
          - intros x Hx [<-|[]]. tauto. }
      rewrite Hkeys, map_app, <- app_assoc. f_equal.
      * apply map_ext_in. intros [k v] Hin. cbn [fst snd].
        rewrite findingsFor_cons_other; [reflexivity |].
        intros ->. apply Hk. unfold Map_keys.
        change (RawCodeScanIssue.filePath issue)
          with (fst (RawCodeScanIssue.filePath issue, v)).
        now apply in_map.
      * cbn [map app fst snd]. rewrite findingsFor_cons_same. f_equal.
        apply map_ext_in. intros key Hkey.
        apply distinctFrom_In in Hkey as [_ Hn].
        rewrite findingsFor_cons_other; [reflexivity |].
        intros ->. apply Hn. apply in_or_app. right. now left.
Qed.

Lemma Map_keys_fold_groupIssue (page : list RawCodeScanIssue.t)
    (m : CodeScanIssueMap) :
  NoDup (Map_keys m) ->
  Map_keys (fold_left groupIssue page m)
  = Map_keys m
    ++ distinctFrom (Map_keys m) (map RawCodeScanIssue.filePath page).
Proof.
  intros Hnd. rewrite fold_groupIssue by assumption.
  unfold Map_keys. rewrite map_app, !map_map. cbn [fst].
  now rewrite map_id.
Qed.

Lemma NoDup_fold_groupIssue (page : list RawCodeScanIssue.t)
    (m : CodeScanIssueMap) :
  NoDup (Map_keys m) -> NoDup (Map_keys (fold_left groupIssue page m)).
Proof.
  intros Hnd. rewrite Map_keys_fold_groupIssue by assumption.
  now apply distinctFrom_NoDup.
Qed.

Lemma In_keys_fold_groupIssue (page : list RawCodeScanIssue.t)
    (m : CodeScanIssueMap) (key : string) :
  NoDup (Map_keys m) ->
  In key (Map_keys (fold_left groupIssue page m))
  <-> In key (Map_keys m)
      \/ exists issue, In issue page /\ RawCodeScanIssue.filePath issue = key.
Proof.
  intros Hnd. rewrite Map_keys_fold_groupIssue by assumption.
  rewrite in_app_iff, distinctFrom_In, in_map_iff. split.
  - intros [H|[[issue [Heq Hin]] _]]; [now left | right; eauto].
  - intros [H|[issue [Hin Heq]]]; [now left |].
    destruct (in_dec string_dec key (Map_keys m)); [now left |].
    right. split; [eauto | assumption].
Qed.

(** ** Traversing the map *)

Section Emission.

Variable trim : string -> string.
Variable path_join : list string -> string.
Variable JSON_parse : string -> Result (list RawCodeScanIssue.t).
Variable fs : FileSystem.

Local Abbreviation toCodeScanIssue := (toCodeScanIssue trim).
Local Abbreviation aggregateEntry := (aggregateEntry trim path_join fs).
Local Abbreviation mapToAggregatedList :=
  (mapToAggregatedList trim path_join JSON_parse fs).
Local Abbreviation listScanResults :=
  (listScanResults trim path_join JSON_parse fs).
Local Abbreviation resolved := (resolved path_join).
Local Abbreviation emitted := (emitted trim path_join fs).
Local Abbreviation isRegularFile := (isRegularFile fs).
Local Abbreviation IsRegularFile := (IsRegularFile fs).
Local Abbreviation aggregatedFor := (aggregatedFor trim path_join).

Lemma isRegularFile_true (path : string) :
  isRegularFile path = true <-> IsRegularFile path.
Proof.
  unfold Aggregator.isRegularFile, Aggregator.IsRegularFile.
  destruct (fs path) as [stats|].
  - split; [eauto | intros [st [[= <-] H]]; exact H].
  - split; [discriminate | intros [st [[=] _]]].
Qed.

(** One entry: the guard on line 71 never throws, and pushes exactly when
    the resolved path is a regular file. *)
Lemma aggregateEntry_emitted projectPath aggregated entry :
  aggregateEntry projectPath aggregated entry
  = Ok (aggregated ++ emitted projectPath [entry]).
Proof.
  destruct entry as [key issues].
  unfold Aggregator.aggregateEntry, Aggregator.emitted,
    Aggregator.isRegularFile, Aggregator.resolved, existsSync, statSync.
  cbn [flat_map fst snd].
  destruct (fs (path_join [projectPath; ".."%string; key])) as [stats|];
    [destruct (isFile stats) |]; cbn; now rewrite ?app_nil_r.
Qed.

Lemma emitted_app projectPath (m1 m2 : CodeScanIssueMap) :
  emitted projectPath (m1 ++ m2)
  = emitted projectPath m1 ++ emitted projectPath m2.
Proof. unfold Aggregator.emitted. apply flat_map_app. Qed.

Lemma forEach_aggregateEntry projectPath (m : CodeScanIssueMap) :
  forall aggregated,
  forEach (aggregateEntry projectPath) m aggregated
  = Ok (aggregated ++ emitted projectPath m).
Proof.
  induction m as [|entry m IH]; intros aggregated; cbn [forEach].
  - cbn. now rewrite app_nil_r.
  - rewrite aggregateEntry_emitted, IH, <- app_assoc.
    now rewrite <- emitted_app.
Qed.

(** One call of [mapToAggregatedList] on a page that decodes: the page is
    grouped into the map, and the whole map is traversed. *)
Lemma mapToAggregatedList_decoded projectPath m aggregated json page :
  JSON_parse json = Ok page ->
  mapToAggregatedList m aggregated json projectPath
  = Ok (fold_left groupIssue page m,
        aggregated ++ emitted projectPath (fold_left groupIssue page m)).
Proof.
  intros Hp. unfold Aggregator.mapToAggregatedList.
  now rewrite Hp, forEach_aggregateEntry.
Qed.

Lemma emitted_In projectPath (m : CodeScanIssueMap) a :
  In a (emitted projectPath m) ->
  exists key issues,
    In (key, issues) m
    /\ IsRegularFile (resolved projectPath key)
    /\ a = {| AggregatedCodeScanIssue.filePath := resolved projectPath key;
              AggregatedCodeScanIssue.issues := map toCodeScanIssue issues |}.
Proof.
  unfold Aggregator.emitted. rewrite in_flat_map.
  intros [[key issues] [Hin Ha]]. cbn [fst snd] in Ha.
  destruct (isRegularFile (resolved projectPath key)) eqn:Hr;
    [| destruct Ha].
  destruct Ha as [<-|[]]. exists key, issues.
  split; [exact Hin |]. split; [now apply isRegularFile_true | reflexivity].
Qed.

Lemma emitted_keys projectPath (f : string -> list RawCodeScanIssue.t)
    (keys : list string) :
  (forall key, In key keys -> IsRegularFile (resolved projectPath key)) ->
  emitted projectPath (map (fun key => (key, f key)) keys)
  = map (fun key =>
           {| AggregatedCodeScanIssue.filePath := resolved projectPath key;
              AggregatedCodeScanIssue.issues := map toCodeScanIssue (f key) |})
        keys.
Proof.
  induction keys as [|key keys IH]; intros Hreg; [reflexivity |].
  cbn [map]. change ((key, f key) :: ?l) with ([(key, f key)] ++ l).
  rewrite emitted_app, IH by (intros; apply Hreg; now right).
  unfold Aggregator.emitted at 1. cbn [flat_map fst snd].
  rewrite (proj2 (isRegularFile_true _) (Hreg key (or_introl eq_refl))).
  reflexivity.
Qed.

(** A key of the map whose resolved path is a regular file is emitted by
    every traversal. *)
Lemma issuesFor_emitted projectPath (m : CodeScanIssueMap) key :
  In key (Map_keys m) ->
  IsRegularFile (resolved projectPath key) ->
  (1 <= issuesFor (resolved projectPath key) (emitted projectPath m))%nat.
Proof.
  intros Hin Hreg. apply isRegularFile_true in Hreg.
  induction m as [|[k v] m IH]; [destruct Hin |].
  change ((k, v) :: m) with ([(k, v)] ++ m).
  rewrite emitted_app. unfold issuesFor. rewrite filter_app, length_app.
  destruct Hin as [Heq|Hin].
  - cbn in Heq. subst k. unfold Aggregator.emitted at 1.
    cbn [flat_map fst snd]. rewrite Hreg. cbn.
    rewrite String.eqb_refl. cbn. lia.
  - specialize (IH Hin). unfold issuesFor in IH. lia.
Qed.

Lemma issuesFor_app path (l1 l2 : list AggregatedCodeScanIssue.t) :
  issuesFor path (l1 ++ l2) = (issuesFor path l1 + issuesFor path l2)%nat.
Proof. unfold issuesFor. now rewrite filter_app, length_app. Qed.

(** ** Page after page *)

Local Abbreviation runPages := (runPages trim path_join fs).
Local Abbreviation DecodesTo := (DecodesTo JSON_parse).
Local Abbreviation AllDecode := (AllDecode JSON_parse).
Local Abbreviation Declared := (Declared JSON_parse).

(** The loop of [listScanResults] on pages that decode is [runPages]. *)
Lemma forEach_pages projectPath responses :
  forall pages state,
  Forall2 DecodesTo responses pages ->
  forEach (fun state issue =>
             match issue with
             | Some json =>
               mapToAggregatedList (fst state) (snd state) json projectPath
             | None => Err (External "JSON.parse: undefined is not valid JSON")
             end)
          (map findingsOf responses) state
  = Ok (runPages projectPath pages state).
Proof.
  induction responses as [|resp responses IH]; intros pages [m aggregated] H;
    inversion H as [|? page ? pages' [json [Hf Hp]] Hrest]; subst;
    [reflexivity |].
  cbn [map forEach]. rewrite Hf.
  cbn [fst snd]. rewrite (mapToAggregatedList_decoded _ _ _ _ _ Hp).
  now rewrite (IH _ _ Hrest).
Qed.

Lemma AllDecode_pages responses :
  AllDecode responses -> exists pages, Forall2 DecodesTo responses pages.
Proof.
  induction 1 as [|resp responses [page Hd] _ [pages IH]].
  - exists []. constructor.
  - exists (page :: pages). now constructor.
Qed.

Lemma listScanResults_decoded projectPath responses pages :
  Forall2 DecodesTo responses pages ->
  listScanResults (Ok responses) projectPath
  = Ok (snd (runPages projectPath pages ([], []))).
Proof.
  intros H. unfold Aggregator.listScanResults.
  rewrite (forEach_pages projectPath responses pages _ H).
  now destruct (runPages projectPath pages ([], [])).
Qed.

(** A key of the map is emitted once more for every page processed. *)
Lemma runPages_known_key projectPath key
  (Hreg : IsRegularFile (resolved projectPath key)) pages :
  forall m aggregated,
  NoDup (Map_keys m) ->
  In key (Map_keys m) ->
  (issuesFor (resolved projectPath key) aggregated + List.length pages
   <= issuesFor (resolved projectPath key)
        (snd (runPages projectPath pages (m, aggregated))))%nat.
Proof.
  induction pages as [|page pages IH]; intros m aggregated Hnd Hin;
    cbn [Aggregator.runPages List.length fst snd]; [lia |].
  set (m' := fold_left groupIssue page m).
  assert (Hin' : In key (Map_keys m'))
    by (apply In_keys_fold_groupIssue; [exact Hnd | now left]).
  specialize (IH m' (aggregated ++ emitted projectPath m')
                (NoDup_fold_groupIssue page m Hnd) Hin').
  rewrite issuesFor_app in IH.
  pose proof (issuesFor_emitted projectPath m' key Hin' Hreg). lia.
Qed.

(** A key declared by page [j] is emitted for that page and for every
    later one. *)
Lemma runPages_declared_key projectPath key
  (Hreg : IsRegularFile (resolved projectPath key)) pages :
  forall j page issue m aggregated,
  NoDup (Map_keys m) ->
  nth_error pages j = Some page ->
  In issue page ->
  RawCodeScanIssue.filePath issue = key ->
  (issuesFor (resolved projectPath key) aggregated + (List.length pages - j)
   <= issuesFor (resolved projectPath key)
        (snd (runPages projectPath pages (m, aggregated))))%nat.
Proof.
  induction pages as [|first pages IH];
    intros j page issue m aggregated Hnd Hj Hin Hkey;
    [destruct j; discriminate |].
  cbn [Aggregator.runPages List.length fst snd].
  set (m' := fold_left groupIssue first m).
  assert (Hnd' : NoDup (Map_keys m')) by now apply NoDup_fold_groupIssue.
  destruct j as [|j]; cbn [nth_error] in Hj.
  - injection Hj as ->.
    assert (Hin' : In key (Map_keys m'))
      by (apply In_keys_fold_groupIssue; [exact Hnd | right; eauto]).
    pose proof (runPages_known_key projectPath key Hreg pages m'
                  (aggregated ++ emitted projectPath m') Hnd' Hin') as H.
    rewrite issuesFor_app in H.
    pose proof (issuesFor_emitted projectPath m' key Hin' Hreg). lia.
  - specialize (IH j page issue m' (aggregated ++ emitted projectPath m')
                  Hnd' Hj Hin Hkey).
    rewrite issuesFor_app in IH. lia.
Qed.

(** Whatever is aggregated stands for a key of the map or of a page, and
    for a regular file. *)
Lemma runPages_In projectPath pages :
  forall m aggregated a,
  NoDup (Map_keys m) ->
  In a (snd (runPages projectPath pages (m, aggregated))) ->
  In a aggregated
  \/ (IsRegularFile (AggregatedCodeScanIssue.filePath a)
      /\ exists key,
           AggregatedCodeScanIssue.filePath a = resolved projectPath key
           /\ (In key (Map_keys m)
               \/ exists page issue,
                    In page pages /\ In issue page
                    /\ RawCodeScanIssue.filePath issue = key)).
Proof.
  induction pages as [|page pages IH]; intros m aggregated a Hnd Ha;
    cbn [Aggregator.runPages fst snd] in Ha; [now left |].
  set (m' := fold_left groupIssue page m) in *.
  apply IH in Ha; [| now apply NoDup_fold_groupIssue].
  destruct Ha as [Ha|[Hreg [key [Hpath Hkey]]]].
  - apply in_app_or in Ha as [Ha|Ha]; [now left |].
    apply emitted_In in Ha as [key [issues [Hin [Hreg ->]]]].
    right. cbn. split; [exact Hreg |]. exists key. split; [reflexivity |].
    assert (Hk : In key (Map_keys m'))
      by (unfold Map_keys; change key with (fst (key, issues));
          now apply in_map).
    apply In_keys_fold_groupIssue in Hk as [Hk|[issue [Hi He]]];
      [now left | right | exact Hnd].
    exists page, issue. split; [now left | now split].
  - right. split; [exact Hreg |]. exists key. split; [exact Hpath |].
    destruct Hkey as [Hk|[pg [issue [Hpg [Hi He]]]]].
    + apply In_keys_fold_groupIssue in Hk as [Hk|[issue [Hi He]]];
        [now left | right | exact Hnd].
      exists page, issue. split; [now left | now split].
    + right. exists pg, issue. split; [now right | now split].
Qed.

Lemma Forall2_In_r {A B} (R : A -> B -> Prop) (l1 : list A) (l2 : list B) y :
  Forall2 R l1 l2 -> In y l2 -> exists x, In x l1 /\ R x y.
Proof.
  induction 1 as [|x y' l1 l2 Hxy _ IH]; intros Hin; [destruct Hin |].
  destruct Hin as [->|Hin]; [exists x; split; [now left | exact Hxy] |].
  destruct (IH Hin) as [x' [Hx' HR]]. exists x'. split; [now right | exact HR].
Qed.

Lemma Forall2_nth_error_l {A B} (R : A -> B -> Prop) (l1 : list A)
    (l2 : list B) :
  Forall2 R l1 l2 ->
  forall j x, nth_error l1 j = Some x ->
  exists y, nth_error l2 j = Some y /\ R x y.
Proof.
  induction 1 as [|x' y' l1 l2 Hxy _ IH]; intros j x Hj;
    [destruct j; discriminate |].
  destruct j as [|j]; cbn in *.
  - injection Hj as <-. eauto.
  - now apply IH.
Qed.

Lemma DecodesTo_unique resp page page' :
  DecodesTo resp page -> DecodesTo resp page' -> page = page'.
Proof. intros [j [Hf Hp]] [j' [Hf' Hp']]. congruence. Qed.

Lemma issuesFor_none path (aggregated : list AggregatedCodeScanIssue.t) :
  (forall a, In a aggregated -> AggregatedCodeScanIssue.filePath a <> path) ->
  issuesFor path aggregated = 0%nat.
Proof.
  unfold issuesFor.
  induction aggregated as [|a l IH]; intros H; [reflexivity |].
  cbn [filter].
  destruct (String.eqb_spec (AggregatedCodeScanIssue.filePath a) path) as [E|_].
  - exfalso. apply (H a); [now left | exact E].
  - apply IH. intros b Hb. apply H. now right.
Qed.

(** ** The claims about the aggregator *)

(** C3. One page whose findings all resolve to regular files: the aggregator
    returns exactly one AggregatedIssue per distinct file path of the page,
    in order of first occurrence, each holding all the findings of that
    file, normalised, in page order. *)
Theorem single_page_one_issue_per_file projectPath resp page :
  DecodesTo resp page ->
  (forall issue, In issue page ->
     IsRegularFile (resolved projectPath (RawCodeScanIssue.filePath issue))) ->
  listScanResults (Ok [resp]) projectPath
  = Ok (map (aggregatedFor projectPath page) (distinctFiles page))
  /\ NoDup (distinctFiles page)
  /\ forall key,
       In key (distinctFiles page)
       <-> exists issue,
             In issue page /\ RawCodeScanIssue.filePath issue = key.
Proof.
  intros Hd Hreg.
  assert (Hkeys : forall key,
             In key (distinctFiles page)
             <-> exists issue,
                   In issue page /\ RawCodeScanIssue.filePath issue = key).
  { intros key. unfold distinctFiles.
    rewrite distinctFrom_In, in_map_iff. split.
    - intros [[issue [He Hi]] _]. eauto.
    - intros [issue [Hi He]]. split; [eauto | intros []]. }
  split; [| split; [| exact Hkeys]].
  - rewrite (listScanResults_decoded projectPath [resp] [page])
      by (repeat constructor; exact Hd).
    cbn [Aggregator.runPages fst snd app].
    rewrite fold_groupIssue by constructor.
    cbn [map app Map_keys].
    rewrite emitted_keys; [reflexivity |].
    intros key Hkey. apply Hkeys in Hkey as [issue [Hi <-]]. now apply Hreg.
  - apply (distinctFrom_NoDup (map RawCodeScanIssue.filePath page) []).
    constructor.
Qed.

(** C4. With several pages, a file declared by page [j] whose resolved path
    is a regular file gets one AggregatedIssue for page [j] and one more for
    every later page: the whole map is traversed again for each page. *)
Theorem earlier_page_file_emitted_again projectPath responses j resp page
    issue :
  AllDecode responses ->
  nth_error responses j = Some resp ->
  DecodesTo resp page ->
  In issue page ->
  IsRegularFile (resolved projectPath (RawCodeScanIssue.filePath issue)) ->
  exists aggregated,
    listScanResults (Ok responses) projectPath = Ok aggregated
    /\ (List.length responses - j
        <= issuesFor (resolved projectPath (RawCodeScanIssue.filePath issue))
             aggregated)%nat.
Proof.
  intros Hall Hj Hd Hin Hreg.
  destruct (AllDecode_pages responses Hall) as [pages Hpages].
  eexists. split; [apply (listScanResults_decoded _ _ _ Hpages) |].
  destruct (Forall2_nth_error_l _ _ _ Hpages j resp Hj) as [page' [Hj' Hd']].
  rewrite (DecodesTo_unique _ _ _ Hd' Hd) in Hj'.
  rewrite (Forall2_length Hpages).
  apply (runPages_declared_key projectPath _ Hreg pages j page issue [] []
           (NoDup_nil _) Hj' Hin eq_refl).
Qed.

(** C5. The normalised start line is the declared start line minus one when
    that is positive, zero when it is zero, and never negative; the end line
    is passed through unchanged. *)
Theorem startLine_normalized (issue : RawCodeScanIssue.t) :
  (0 < RawCodeScanIssue.startLine issue ->
   CodeScanIssue.startLine (toCodeScanIssue issue)
   = RawCodeScanIssue.startLine issue - 1)
  /\ (RawCodeScanIssue.startLine issue = 0 ->
      CodeScanIssue.startLine (toCodeScanIssue issue) = 0)
  /\ 0 <= CodeScanIssue.startLine (toCodeScanIssue issue)
  /\ CodeScanIssue.endLine (toCodeScanIssue issue)
     = RawCodeScanIssue.endLine issue.
Proof.
  cbn [Aggregator.toCodeScanIssue CodeScanIssue.startLine
         CodeScanIssue.endLine].
  destruct (Z.geb_spec (RawCodeScanIssue.startLine issue - 1) 0);
    repeat split; intros; lia.
Qed.

(** C6. On pages that decode, the aggregator returns without error; every
    AggregatedIssue it returns stands for a declared file path whose
    resolved path exists and is a regular file; a path that is missing or
    not a regular file has no AggregatedIssue. *)
Theorem only_regular_files_aggregated projectPath responses :
  AllDecode responses ->
  exists aggregated,
    listScanResults (Ok responses) projectPath = Ok aggregated
    /\ (forall a, In a aggregated ->
          IsRegularFile (AggregatedCodeScanIssue.filePath a)
          /\ exists key,
               Declared responses key
               /\ AggregatedCodeScanIssue.filePath a
                  = resolved projectPath key)
    /\ (forall key,
          ~ IsRegularFile (resolved projectPath key) ->
          issuesFor (resolved projectPath key) aggregated = 0%nat).
Proof.
  intros Hall.
  destruct (AllDecode_pages responses Hall) as [pages Hpages].
  eexists. split; [apply (listScanResults_decoded _ _ _ Hpages) |].
  assert (Hsound : forall a,
             In a (snd (runPages projectPath pages ([], []))) ->
             IsRegularFile (AggregatedCodeScanIssue.filePath a)
             /\ exists key,
                  Declared responses key
                  /\ AggregatedCodeScanIssue.filePath a
                     = resolved projectPath key).
  { intros a Ha.
    apply runPages_In in Ha as [[]|[Hreg [key [Hpath Hkey]]]];
      [| constructor].
    split; [exact Hreg |]. exists key. split; [| exact Hpath].
    destruct Hkey as [[]|[page [issue [Hpg [Hi He]]]]].
    destruct (Forall2_In_r _ _ _ _ Hpages Hpg) as [resp [Hresp Hd]].
    exists resp, page, issue. auto. }
  split; [exact Hsound |].
  intros key Hn. apply issuesFor_none. intros a Ha Hpath.
  apply Hsound in Ha as [Hreg _]. apply Hn. now rewrite <- Hpath.
Qed.

End Emission.

(** ** The claims on the sample data *)

Lemma single_page_one_issue_per_file_witness :
  listScanResults sampleTrim samplePathJoin sampleParse sampleDisk
    (Ok [sampleResponse1]) "/work/project"
  = Ok (map (aggregatedFor sampleTrim samplePathJoin "/work/project"
               samplePage1)
            (distinctFiles samplePage1))
  /\ NoDup (distinctFiles samplePage1)
  /\ forall key,
       In key (distinctFiles samplePage1)
       <-> exists issue,
             In issue samplePage1 /\ RawCodeScanIssue.filePath issue = key.
Proof.
  apply (single_page_one_issue_per_file sampleTrim samplePathJoin
           sampleParse sampleDisk "/work/project" sampleResponse1
           samplePage1).
  - exists "page-1"%string. split; reflexivity.
  - intros issue [<-|[<-|[<-|[]]]]; eexists; split; reflexivity.
Defined.

Example sample_single_page :
  listScanResults sampleTrim samplePathJoin sampleParse sampleDisk
    (Ok [sampleResponse1]) "/work/project"
  = Ok [ {| AggregatedCodeScanIssue.filePath := "/work/project/../a.py";
            AggregatedCodeScanIssue.issues :=
              map (toCodeScanIssue sampleTrim)
                  [sampleIssue "a.py" 3 "first"; sampleIssue "a.py" 7 "third"] |};
         {| AggregatedCodeScanIssue.filePath := "/work/project/../b.py";
            AggregatedCodeScanIssue.issues :=
              map (toCodeScanIssue sampleTrim)
                  [sampleIssue "b.py" 0 "second"] |} ].
Proof. reflexivity. Qed.

Lemma earlier_page_file_emitted_again_witness :
  exists aggregated,
    listScanResults sampleTrim samplePathJoin sampleParse sampleDisk
      (Ok [sampleResponse1; sampleResponse2]) "/work/project"
    = Ok aggregated
    /\ (List.length [sampleResponse1; sampleResponse2] - 0
        <= issuesFor
             (resolved samplePathJoin "/work/project"
                (RawCodeScanIssue.filePath (sampleIssue "a.py" 3 "first")))
             aggregated)%nat.
Proof.
  apply (earlier_page_file_emitted_again sampleTrim samplePathJoin
           sampleParse sampleDisk "/work/project"
           [sampleResponse1; sampleResponse2] 0 sampleResponse1 samplePage1
           (sampleIssue "a.py" 3 "first")).
  - repeat constructor.
    + exists samplePage1, "page-1"%string. split; reflexivity.
    + exists samplePage2, "page-2"%string. split; reflexivity.
  - reflexivity.
  - exists "page-1"%string. split; reflexivity.
  - simpl. left. reflexivity.
  - eexists. split; reflexivity.
Defined.

(** Two pages: "a.py" and "b.py" are each reported twice, the second time
    with the findings of both pages. *)
Example sample_two_pages :
  listScanResults sampleTrim samplePathJoin sampleParse sampleDisk
    (Ok [sampleResponse1; sampleResponse2]) "/work/project"
  = Ok (map (aggregatedFor sampleTrim samplePathJoin "/work/project"
               samplePage1) ["a.py"; "b.py"]%string
        ++ map (aggregatedFor sampleTrim samplePathJoin "/work/project"
                  (samplePage1 ++ samplePage2)) ["a.py"; "b.py"]%string).
Proof. reflexivity. Qed.

Lemma only_regular_files_aggregated_witness :
  exists aggregated,
    listScanResults sampleTrim samplePathJoin sampleParse sampleDisk
      (Ok [sampleResponse2]) "/work/project"
    = Ok aggregated
    /\ (forall a, In a aggregated ->
          IsRegularFile sampleDisk (AggregatedCodeScanIssue.filePath a)
          /\ exists key,
               Declared sampleParse [sampleResponse2] key
               /\ AggregatedCodeScanIssue.filePath a
                  = resolved samplePathJoin "/work/project" key)
    /\ (forall key,
          ~ IsRegularFile sampleDisk
              (resolved samplePathJoin "/work/project" key) ->
          issuesFor (resolved samplePathJoin "/work/project" key) aggregated
          = 0%nat).
Proof.
  apply (only_regular_files_aggregated sampleTrim samplePathJoin sampleParse
           sampleDisk "/work/project" [sampleResponse2]).
  repeat constructor.
  exists samplePage2, "page-2"%string. split; reflexivity.
Defined.

(** The finding for "gone.py" is dropped without an error. *)
Example sample_missing_file :
  listScanResults sampleTrim samplePathJoin sampleParse sampleDisk
    (Ok [sampleResponse2]) "/work/project"
  = Ok [ {| AggregatedCodeScanIssue.filePath := "/work/project/../b.py";
            AggregatedCodeScanIssue.issues :=
              map (toCodeScanIssue sampleTrim)
                  [sampleIssue "b.py" 9 "fourth"] |} ].
Proof. reflexivity. Qed.

End AggregatorFacts.

(** * The aggregator over several pages *)

Module AggregatorRuns.
Import Aggregator AggregatorFacts.

(** ** Lookups in the map *)

Lemma Map_has_get (m : CodeScanIssueMap) (key : string) :
  Map_has m key = match Map_get m key with Some _ => true | None => false end.
Proof.
  induction m as [|[k v] m IH]; cbn; [reflexivity |].
  destruct (k =? key)%string; [reflexivity | exact IH].
Qed.

Lemma Map_get_set_same (m : CodeScanIssueMap) key value :
  Map_get (Map_set m key value) key = Some value.
Proof.
  induction m as [|[k v] m IH]; cbn.
  - now rewrite String.eqb_refl.
  - destruct (String.eqb_spec k key) as [->|Hne]; cbn.
    + now rewrite String.eqb_refl.
    + destruct (String.eqb_spec k key); [congruence | exact IH].
Qed.

Lemma Map_get_set_other (m : CodeScanIssueMap) key key' value :
  key' <> key ->
  Map_get (Map_set m key value) key' = Map_get m key'.
Proof.
  intros Hne. induction m as [|[k v] m IH]; cbn.
  - destruct (String.eqb_spec key key'); [congruence | reflexivity].
  - destruct (String.eqb_spec k key) as [->|Hk]; cbn.
    + destruct (String.eqb_spec key key'); [congruence | reflexivity].
    + destruct (String.eqb_spec k key'); [reflexivity | exact IH].
Qed.

(** X6. Grouping a finding, seen through lookups: the list under the
    finding's file path becomes the list it was (empty for a new path) with
    the finding appended, and the list under every other path is
    unchanged. *)
Theorem groupIssue_lookup (m : CodeScanIssueMap) (issue : RawCodeScanIssue.t)
    (key : string) :
  Map_get (groupIssue m issue) key
  = if String.eqb key (RawCodeScanIssue.filePath issue)
    then Some (match Map_get m key with
               | Some list => list ++ [issue]
               | None => [issue]
               end)
    else Map_get m key.
Proof.
  unfold groupIssue. rewrite Map_has_get.
  destruct (String.eqb_spec key (RawCodeScanIssue.filePath issue))
    as [->|Hne].
  - destruct (Map_get m (RawCodeScanIssue.filePath issue)) as [list|];
      apply Map_get_set_same.
  - destruct (Map_get m (RawCodeScanIssue.filePath issue)) as [list|];
      now apply Map_get_set_other.
Qed.

Section Pages.

Variable trim : string -> string.
Variable path_join : list string -> string.
Variable JSON_parse : string -> Result (list RawCodeScanIssue.t).
Variable fs : FileSystem.

Local Abbreviation toCodeScanIssue := (toCodeScanIssue trim).
Local Abbreviation mapToAggregatedList :=
  (mapToAggregatedList trim path_join JSON_parse fs).
Local Abbreviation listScanResults :=
  (listScanResults trim path_join JSON_parse fs).
Local Abbreviation resolved := (resolved path_join).
Local Abbreviation emitted := (emitted trim path_join fs).
Local Abbreviation isRegularFile := (isRegularFile fs).
Local Abbreviation IsRegularFile := (IsRegularFile fs).
Local Abbreviation aggregatedFor := (aggregatedFor trim path_join).
Local Abbreviation regularFiles := (regularFiles path_join fs).
Local Abbreviation runPages := (runPages trim path_join fs).
Local Abbreviation DecodesTo := (DecodesTo JSON_parse).
Local Abbreviation AllDecode := (AllDecode JSON_parse).
Local Abbreviation FailsToDecode := (FailsToDecode JSON_parse).

Lemma forEach_app {A S : Type} (f : S -> A -> Result S) (l1 l2 : list A) :
  forall state,
  forEach f (l1 ++ l2) state
  = match forEach f l1 state with
    | Ok state' => forEach f l2 state'
    | Err e => Err e
    end.
Proof.
  induction l1 as [|x l1 IH]; intros state; cbn; [reflexivity |].
  destruct (f state x); [apply IH | reflexivity].
Qed.

Lemma runPages_app projectPath pages1 pages2 : forall state,
  runPages projectPath (pages1 ++ pages2) state
  = runPages projectPath pages2 (runPages projectPath pages1 state).
Proof.
  induction pages1 as [|page pages1 IH]; intros state; cbn;
    [reflexivity | apply IH].
Qed.

(** The map after all the pages is the map of their concatenation. *)
Lemma runPages_fst projectPath pages : forall m aggregated,
  fst (runPages projectPath pages (m, aggregated))
  = fold_left groupIssue (List.concat pages) m.
Proof.
  induction pages as [|page pages IH]; intros m aggregated;
    cbn [Aggregator.runPages List.concat fst snd]; [reflexivity |].
  now rewrite IH, fold_left_app.
Qed.

Lemma emitted_keys_filter projectPath
    (f : string -> list RawCodeScanIssue.t) (keys : list string) :
  emitted projectPath (map (fun key => (key, f key)) keys)
  = map (fun key =>
           {| AggregatedCodeScanIssue.filePath := resolved projectPath key;
              AggregatedCodeScanIssue.issues := map toCodeScanIssue (f key) |})
        (filter (fun key => isRegularFile (resolved projectPath key)) keys).
Proof.
  induction keys as [|key keys IH]; [reflexivity |].
  cbn [map filter]. change ((key, f key) :: ?l) with ([(key, f key)] ++ l).
  rewrite (emitted_app trim path_join fs), IH.
  unfold Aggregator.emitted at 1. cbn [flat_map fst snd].
  now destruct (isRegularFile (resolved projectPath key)).
Qed.

(** One traversal of the map built from [findings]. *)
Lemma emitted_grouped projectPath (findings : list RawCodeScanIssue.t) :
  emitted projectPath (fold_left groupIssue findings [])
  = map (aggregatedFor projectPath findings)
        (regularFiles projectPath findings).
Proof.
  rewrite fold_groupIssue by constructor. cbn [map app Map_keys].
  apply emitted_keys_filter.
Qed.

Lemma runPages_snoc projectPath pages page :
  snd (runPages projectPath (pages ++ [page]) ([], []))
  = snd (runPages projectPath pages ([], []))
    ++ map (aggregatedFor projectPath (List.concat pages ++ page))
           (regularFiles projectPath (List.concat pages ++ page)).
Proof.
  rewrite runPages_app. cbn [Aggregator.runPages snd]. f_equal.
  rewrite runPages_fst, <- fold_left_app. apply emitted_grouped.
Qed.

Lemma regularFiles_In projectPath (findings : list RawCodeScanIssue.t) key :
  In key (regularFiles projectPath findings)
  <-> IsRegularFile (resolved projectPath key)
      /\ exists issue,
           In issue findings /\ RawCodeScanIssue.filePath issue = key.
Proof.
  unfold Aggregator.regularFiles, distinctFiles.
  rewrite filter_In, distinctFrom_In, in_map_iff, isRegularFile_true.
  split.
  - intros [[[issue [He Hi]] _] Hr]. eauto.
  - intros [Hr [issue [Hi He]]]. split; [| exact Hr].
    split; [eauto | intros []].
Qed.

Lemma Forall2_snoc {A B} (R : A -> B -> Prop) l1 l2 x y :
  Forall2 R l1 l2 -> R x y -> Forall2 R (l1 ++ [x]) (l2 ++ [y]).
Proof. intros H Hxy. apply Forall2_app; [exact H | now constructor]. Qed.

(** Where an entry of the result comes from. *)
Lemma runPages_origin projectPath pages a :
  In a (snd (runPages projectPath pages ([], []))) ->
  exists i key,
    (1 <= i <= List.length pages)%nat
    /\ In key (regularFiles projectPath (List.concat (firstn i pages)))
    /\ a = aggregatedFor projectPath (List.concat (firstn i pages)) key.
Proof.
  induction pages as [|page pages IH] using rev_ind; [intros [] |].
  rewrite runPages_snoc, in_app_iff, in_map_iff, length_app.
  cbn [List.length]. intros [Ha|[key [<- Hkey]]].
  - destruct (IH Ha) as [i [key [Hi [Hkey ->]]]].
    exists i, key. rewrite firstn_app.
    replace (i - List.length pages)%nat with 0%nat by lia.
    cbn [firstn]. rewrite app_nil_r. split; [lia | now split].
  - exists (List.length pages + 1)%nat, key.
    rewrite firstn_all2 by (rewrite length_app; cbn; lia).
    rewrite concat_app. cbn [List.concat]. rewrite app_nil_r.
    split; [lia | now split].
Qed.

(** X7. A page that does not decode aborts the aggregation: when the pages
    before it decode and it does not, [listScanResults] throws the error of
    that page, whatever the earlier pages held and whatever follows. *)
Theorem undecodable_page_aborts projectPath before bad after e :
  AllDecode before ->
  FailsToDecode bad e ->
  listScanResults (Ok (before ++ bad :: after)) projectPath = Err e.
Proof.
  intros Hall Hbad.
  destruct (AllDecode_pages JSON_parse before Hall) as [pages Hpages].
  unfold Aggregator.listScanResults.
  rewrite map_app, forEach_app.
  rewrite (forEach_pages trim path_join JSON_parse fs projectPath before
             pages _ Hpages).
  cbn [map forEach]. unfold Aggregator.FailsToDecode in Hbad.
  destruct (findingsOf bad) as [json|].
  - unfold Aggregator.mapToAggregatedList. now rewrite Hbad.
  - now subst e.
Qed.

(** X8. One more page: the result for the pages with the new page added is
    the result for the pages before it, followed by one AggregatedIssue for
    every distinct file path of all the findings so far whose resolved path
    is a regular file, in order of first occurrence, each holding all the
    findings of that file so far in the order they arrived. *)
Theorem page_appended projectPath responses pages resp page :
  Forall2 DecodesTo responses pages ->
  DecodesTo resp page ->
  exists earlier,
    listScanResults (Ok responses) projectPath = Ok earlier
    /\ listScanResults (Ok (responses ++ [resp])) projectPath
       = Ok (earlier
             ++ map (aggregatedFor projectPath (List.concat pages ++ page))
                    (regularFiles projectPath (List.concat pages ++ page))).
Proof.
  intros Hpages Hd. eexists. split.
  - apply (listScanResults_decoded trim path_join JSON_parse fs _ _ _ Hpages).
  - rewrite (listScanResults_decoded trim path_join JSON_parse fs projectPath
               (responses ++ [resp]) (pages ++ [page]))
      by (apply Forall2_snoc; assumption).
    now rewrite runPages_snoc.
Qed.

(** X9. No finding of a present file is lost: for a finding of any page
    whose resolved path is a regular file, the result holds the
    AggregatedIssue of that file over all the pages, and the normalised
    finding is among its issues. *)
Theorem finding_of_regular_file_is_reported projectPath responses pages
    page issue :
  Forall2 DecodesTo responses pages ->
  In page pages ->
  In issue page ->
  IsRegularFile (resolved projectPath (RawCodeScanIssue.filePath issue)) ->
  exists aggregated,
    listScanResults (Ok responses) projectPath = Ok aggregated
    /\ In (aggregatedFor projectPath (List.concat pages)
             (RawCodeScanIssue.filePath issue)) aggregated
    /\ In (toCodeScanIssue issue)
          (AggregatedCodeScanIssue.issues
             (aggregatedFor projectPath (List.concat pages)
                (RawCodeScanIssue.filePath issue))).
Proof.
  intros Hpages Hpage Hissue Hreg.
  assert (Hall : In issue (List.concat pages))
    by (apply in_concat; eauto).
  eexists. split;
    [apply (listScanResults_decoded trim path_join JSON_parse fs _ _ _ Hpages)
    | split].
  - destruct (exists_last (l := pages)) as [init [last Heq]];
      [intros ->; destruct Hpage |].
    subst pages.
    assert (Hc : List.concat (init ++ [last]) = List.concat init ++ last).
    { rewrite concat_app. cbn. now rewrite app_nil_r. }
    rewrite runPages_snoc, Hc. rewrite Hc in Hall.
    apply in_or_app. right.
    apply in_map. apply regularFiles_In. split; eauto.
  - cbn. apply in_map. unfold findingsFor. apply filter_In.
    split; [exact Hall | apply String.eqb_refl].
Qed.

(** X10. Nothing is invented: every AggregatedIssue of the result is, for
    some number [i] of pages processed and some file path declared in them
    whose resolved path is a regular file, the aggregation of the findings
    of that file in the first [i] pages, in the order they arrived. *)
Theorem entry_aggregates_a_prefix projectPath responses pages aggregated a :
  Forall2 DecodesTo responses pages ->
  listScanResults (Ok responses) projectPath = Ok aggregated ->
  In a aggregated ->
  exists i key,
    (1 <= i <= List.length pages)%nat
    /\ In key (regularFiles projectPath (List.concat (firstn i pages)))
    /\ a = aggregatedFor projectPath (List.concat (firstn i pages)) key.
Proof.
  intros Hpages Hr Ha.
  rewrite (listScanResults_decoded trim path_join JSON_parse fs _ _ _ Hpages)
    in Hr.
  injection Hr as <-. now apply runPages_origin.
Qed.

End Pages.

(** ** On the sample data *)

Lemma undecodable_page_aborts_witness :
  listScanResults sampleTrim samplePathJoin sampleParse sampleDisk
    (Ok ([sampleResponse1] ++ sampleResponseBroken :: [sampleResponse2]))
    "/work/project"
  = Err (External "SyntaxError").
Proof.
  apply (undecodable_page_aborts sampleTrim samplePathJoin sampleParse
           sampleDisk "/work/project" [sampleResponse1] sampleResponseBroken
           [sampleResponse2] (External "SyntaxError")).
  - repeat constructor. exists samplePage1, "page-1"%string.
    split; reflexivity.
  - reflexivity.
Defined.

Lemma page_appended_witness :
  exists earlier,
    listScanResults sampleTrim samplePathJoin sampleParse sampleDisk
      (Ok [sampleResponse1]) "/work/project" = Ok earlier
    /\ listScanResults sampleTrim samplePathJoin sampleParse sampleDisk
         (Ok ([sampleResponse1] ++ [sampleResponse2])) "/work/project"
       = Ok (earlier
             ++ map (aggregatedFor sampleTrim samplePathJoin "/work/project"
                       (List.concat [samplePage1] ++ samplePage2))
                    (regularFiles samplePathJoin sampleDisk "/work/project"
                       (List.concat [samplePage1] ++ samplePage2))).
Proof.
  apply (page_appended sampleTrim samplePathJoin sampleParse sampleDisk
           "/work/project" [sampleResponse1] [samplePage1] sampleResponse2
           samplePage2).
  - repeat constructor. exists "page-1"%string. split; reflexivity.
  - exists "page-2"%string. split; reflexivity.
Defined.

Lemma finding_of_regular_file_is_reported_witness :
  exists aggregated,
    listScanResults sampleTrim samplePathJoin sampleParse sampleDisk
      (Ok [sampleResponse1; sampleResponse2]) "/work/project"
    = Ok aggregated
    /\ In (aggregatedFor sampleTrim samplePathJoin "/work/project"
             (List.concat [samplePage1; samplePage2])
             (RawCodeScanIssue.filePath (sampleIssue "b.py" 0 "second")))
          aggregated
    /\ In (toCodeScanIssue sampleTrim (sampleIssue "b.py" 0 "second"))
          (AggregatedCodeScanIssue.issues
             (aggregatedFor sampleTrim samplePathJoin "/work/project"
                (List.concat [samplePage1; samplePage2])
                (RawCodeScanIssue.filePath (sampleIssue "b.py" 0 "second")))).
Proof.
  apply (finding_of_regular_file_is_reported sampleTrim samplePathJoin
           sampleParse sampleDisk "/work/project"
           [sampleResponse1; sampleResponse2] [samplePage1; samplePage2]
           samplePage1 (sampleIssue "b.py" 0 "second")).
  - repeat constructor.
    + exists "page-1"%string. split; reflexivity.
    + exists "page-2"%string. split; reflexivity.
  - simpl. left. reflexivity.
  - simpl. right. left. reflexivity.
  - eexists. split; reflexivity.
Defined.

Lemma entry_aggregates_a_prefix_witness :
  exists i key,
    (1 <= i <= List.length [samplePage1; samplePage2])%nat
    /\ In key (regularFiles samplePathJoin sampleDisk "/work/project"
                 (List.concat (firstn i [samplePage1; samplePage2])))
    /\ aggregatedFor sampleTrim samplePathJoin "/work/project" samplePage1
         "a.py"
       = aggregatedFor sampleTrim samplePathJoin "/work/project"
           (List.concat (firstn i [samplePage1; samplePage2])) key.
Proof.
  apply (entry_aggregates_a_prefix sampleTrim samplePathJoin sampleParse
           sampleDisk "/work/project" [sampleResponse1; sampleResponse2]
           [samplePage1; samplePage2]
           (map (aggregatedFor sampleTrim samplePathJoin "/work/project"
                   samplePage1) ["a.py"; "b.py"]%string
            ++ map (aggregatedFor sampleTrim samplePathJoin "/work/project"
                      (samplePage1 ++ samplePage2)) ["a.py"; "b.py"]%string)).
  - repeat constructor.
    + exists "page-1"%string. split; reflexivity.
    + exists "page-2"%string. split; reflexivity.
  - reflexivity.
  - simpl. left. reflexivity.
Defined.

End AggregatorRuns.

(** * Properties of the upload preparer and the uploader *)

Module UploadFacts.
Import Upload.

Lemma isSuccess_true (status : Z) :
  isSuccess status = true <-> 200 <= status <= 299.
Proof. unfold isSuccess. rewrite andb_true_iff, !Z.leb_le. tauto. Qed.

Lemma fetchResponse_fails (reply : EndpointReply) :
  UploadFails reply -> exists e, fetchResponse reply = Err e.
Proof.
  destruct reply as [status statusText|reason]; cbn; intros H; [| eauto].
  destruct (isSuccess status) eqn:Hs; [| eauto].
  apply isSuccess_true in Hs. contradiction.
Qed.

(** A file that cannot be read fails the upload the same way, before any
    request is made. *)
Lemma unreadable_archive_raises_fixed_guidance (w : World) fileName resp e :
  readFileSync w fileName = Err e ->
  uploadArtifactToS3 w fileName resp
  = (Err (Error uploadFailedMessage), [EvReadFile fileName]).
Proof.
  intros Hr. unfold uploadArtifactToS3, readFile, perform, bind, tryCatch.
  rewrite Hr. reflexivity.
Qed.

(** A transfer the endpoint accepts ends normally, after one request. *)
Lemma accepted_upload_returns (w : World) fileName resp body status text :
  readFileSync w fileName = Ok body ->
  storage w "PUT" (uploadUrl resp) body (requestHeaders resp)
  = HttpResponse status text ->
  200 <= status <= 299 ->
  uploadArtifactToS3 w fileName resp
  = (Ok tt, [EvReadFile fileName;
             EvFetch "PUT" (uploadUrl resp) body (requestHeaders resp)]).
Proof.
  intros Hr Hs Hok.
  unfold uploadArtifactToS3, readFile, fetch, perform, bind, tryCatch.
  rewrite Hr, Hs. cbn [fetchResponse].
  rewrite (proj2 (isSuccess_true status) Hok). reflexivity.
Qed.

(** C7. With an empty archive path the upload preparer throws the
    precondition error at once: no file is read and no request, for an
    upload destination or for the upload, is made. *)
Theorem empty_archive_path_fails_without_requests (w : World)
    (truncation : Truncation) :
  zipFilePath truncation = ""%string ->
  getPresignedUrlAndUpload w truncation
  = (Err (Error "Truncation failure: can't find valid source zip."), []).
Proof.
  intros H. unfold getPresignedUrlAndUpload. rewrite H. reflexivity.
Qed.

Lemma empty_archive_path_fails_without_requests_witness :
  getPresignedUrlAndUpload worldAccepting {| zipFilePath := "" |}
  = (Err (Error "Truncation failure: can't find valid source zip."), []).
Proof.
  apply (empty_archive_path_fails_without_requests worldAccepting
           {| zipFilePath := "" |}).
  reflexivity.
Defined.

(** C8. When the archive is read and the storage endpoint answers the PUT
    with a non-success response, or the transfer fails with a network
    error, the uploader throws an error whose message is the fixed guidance
    text, whatever the underlying error said, and it has made exactly one
    request. *)
Theorem upload_failure_raises_fixed_guidance (w : World) fileName resp body :
  readFileSync w fileName = Ok body ->
  UploadFails (storage w "PUT" (uploadUrl resp) body (requestHeaders resp)) ->
  uploadArtifactToS3 w fileName resp
  = (Err (Error uploadFailedMessage),
     [EvReadFile fileName;
      EvFetch "PUT" (uploadUrl resp) body (requestHeaders resp)]).
Proof.
  intros Hr Hf. apply fetchResponse_fails in Hf as [e He].
  unfold uploadArtifactToS3, readFile, fetch, perform, bind, tryCatch.
  rewrite Hr, He. reflexivity.
Qed.

Lemma upload_failure_raises_fixed_guidance_witness :
  uploadArtifactToS3 worldForbidden "/tmp/src.zip" sampleUploadResponse
  = (Err (Error uploadFailedMessage),
     [EvReadFile "/tmp/src.zip";
      EvFetch "PUT" (uploadUrl sampleUploadResponse) "PK-bytes"
        (requestHeaders sampleUploadResponse)]).
Proof.
  apply (upload_failure_raises_fixed_guidance worldForbidden "/tmp/src.zip"
           sampleUploadResponse "PK-bytes").
  - reflexivity.
  - simpl. lia.
Defined.

(** The whole preparer on the two sample worlds. *)
Example sample_upload_forbidden :
  getPresignedUrlAndUpload worldForbidden {| zipFilePath := "/tmp/src.zip" |}
  = (Err (Error uploadFailedMessage),
     [EvReadFile "/tmp/src.zip";
      EvCreateUploadUrl {| contentMd5 := "1B2M2Y8AsgTpgAmY7PhCfg==";
                           artifactType := "SourceCode" |};
      EvReadFile "/tmp/src.zip";
      EvFetch "PUT" "https://bucket.example/upload-1" "PK-bytes"
        [("content-type", "application/zip")]%string]).
Proof. reflexivity. Qed.

Example sample_upload_accepted :
  fst (getPresignedUrlAndUpload worldAccepting
         {| zipFilePath := "/tmp/src.zip" |})
  = Ok {| SourceCode := "upload-1" |}.
Proof. reflexivity. Qed.

End UploadFacts.

(** * The upload preparer, path by path *)

Module UploadRuns.
Import Upload UploadFacts.

(** X11. The uploader never lets another error out: whatever the disk and
    the endpoint do, [uploadArtifactToS3] either returns or throws the
    error with the fixed guidance text, and it makes at most one request. *)
Theorem uploader_throws_only_guidance (w : World) (fileName : string)
    (resp : CreateUploadUrlResponse) :
  (fst (uploadArtifactToS3 w fileName resp) = Ok tt
   \/ fst (uploadArtifactToS3 w fileName resp)
      = Err (Error uploadFailedMessage))
  /\ (puts (snd (uploadArtifactToS3 w fileName resp)) <= 1)%nat.
Proof.
  unfold uploadArtifactToS3, readFile, fetch, perform, bind, tryCatch.
  destruct (readFileSync w fileName) as [body|e]; cbn.
  - destruct (fetchResponse _) as [[status text]|e]; cbn; auto.
  - auto.
Qed.

(** X12. An archive that cannot be read fails the uploader with the fixed
    guidance text, before any request is made. *)
Theorem unreadable_archive_is_not_sent (w : World) fileName resp e :
  readFileSync w fileName = Err e ->
  uploadArtifactToS3 w fileName resp
  = (Err (Error uploadFailedMessage), [EvReadFile fileName]).
Proof.
  intros Hr. now apply unreadable_archive_raises_fixed_guidance with (e := e).
Qed.

Lemma unreadable_archive_is_not_sent_witness :
  uploadArtifactToS3 worldForbidden "/tmp/missing.zip" sampleUploadResponse
  = (Err (Error uploadFailedMessage), [EvReadFile "/tmp/missing.zip"]).
Proof.
  apply (unreadable_archive_is_not_sent worldForbidden "/tmp/missing.zip"
           sampleUploadResponse (External "ENOENT")).
  reflexivity.
Defined.

(** X13. The whole preparer when everything works: the archive is read and
    digested, an upload URL is requested with that digest and the artifact
    type "SourceCode", the archive is read again and PUT to the URL issued
    with the headers issued, and the artifact map names the upload id. *)
Theorem prepared_and_uploaded (w : World) (truncation : Truncation)
    (bytes : string) (srcResp : CreateUploadUrlResponse)
    (status : Z) (statusText : string) :
  zipFilePath truncation <> ""%string ->
  readFileSync w (zipFilePath truncation) = Ok bytes ->
  createUploadUrl w {| contentMd5 := md5Base64 w bytes;
                       artifactType := "SourceCode" |} = Ok srcResp ->
  storage w "PUT" (uploadUrl srcResp) bytes (requestHeaders srcResp)
  = HttpResponse status statusText ->
  200 <= status <= 299 ->
  getPresignedUrlAndUpload w truncation
  = (Ok {| SourceCode := uploadId srcResp |},
     [EvReadFile (zipFilePath truncation);
      EvCreateUploadUrl {| contentMd5 := md5Base64 w bytes;
                           artifactType := "SourceCode" |};
      EvReadFile (zipFilePath truncation);
      EvFetch "PUT" (uploadUrl srcResp) bytes (requestHeaders srcResp)]).
Proof.
  intros Hne Hr Hc Hs Hok. unfold getPresignedUrlAndUpload.
  apply String.eqb_neq in Hne. rewrite Hne.
  unfold getMd5, readFile, perform, bind, ret. rewrite Hr, Hc.
  rewrite (accepted_upload_returns w _ srcResp bytes status statusText
             Hr Hs Hok).
  reflexivity.
Qed.

Lemma prepared_and_uploaded_witness :
  getPresignedUrlAndUpload worldAccepting {| zipFilePath := "/tmp/src.zip" |}
  = (Ok {| SourceCode := uploadId sampleUploadResponse |},
     [EvReadFile "/tmp/src.zip";
      EvCreateUploadUrl {| contentMd5 := md5Base64 worldAccepting "PK-bytes";
                           artifactType := "SourceCode" |};
      EvReadFile "/tmp/src.zip";
      EvFetch "PUT" (uploadUrl sampleUploadResponse) "PK-bytes"
        (requestHeaders sampleUploadResponse)]).
Proof.
  apply (prepared_and_uploaded worldAccepting
           {| zipFilePath := "/tmp/src.zip" |} "PK-bytes"
           sampleUploadResponse 200 "OK").
  - discriminate.
  - reflexivity.
  - reflexivity.
  - reflexivity.
  - lia.
Defined.

(** X14. An archive path that is not empty but cannot be read: the preparer
    throws the error of the file system as it is, not the guidance text,
    and makes no request. *)
Theorem unreadable_archive_stops_preparer (w : World)
    (truncation : Truncation) (e : Exception) :
  zipFilePath truncation <> ""%string ->
  readFileSync w (zipFilePath truncation) = Err e ->
  getPresignedUrlAndUpload w truncation
  = (Err e, [EvReadFile (zipFilePath truncation)]).
Proof.
  intros Hne Hr. unfold getPresignedUrlAndUpload.
  apply String.eqb_neq in Hne. rewrite Hne.
  unfold getMd5, readFile, perform, bind. now rewrite Hr.
Qed.

Lemma unreadable_archive_stops_preparer_witness :
  getPresignedUrlAndUpload worldAccepting
    {| zipFilePath := "/tmp/missing.zip" |}
  = (Err (External "ENOENT"), [EvReadFile "/tmp/missing.zip"]).
Proof.
  apply (unreadable_archive_stops_preparer worldAccepting
           {| zipFilePath := "/tmp/missing.zip" |} (External "ENOENT")).
  - discriminate.
  - reflexivity.
Defined.

(** X15. The service refuses the upload URL: the preparer throws the
    service's error as it is, and nothing is sent to the storage
    endpoint. *)
Theorem refused_upload_url_stops_preparer (w : World)
    (truncation : Truncation) (bytes : string) (e : Exception) :
  zipFilePath truncation <> ""%string ->
  readFileSync w (zipFilePath truncation) = Ok bytes ->
  createUploadUrl w {| contentMd5 := md5Base64 w bytes;
                       artifactType := "SourceCode" |} = Err e ->
  getPresignedUrlAndUpload w truncation
  = (Err e,
     [EvReadFile (zipFilePath truncation);
      EvCreateUploadUrl {| contentMd5 := md5Base64 w bytes;
                           artifactType := "SourceCode" |}]).
Proof.
  intros Hne Hr Hc. unfold getPresignedUrlAndUpload.
  apply String.eqb_neq in Hne. rewrite Hne.
  unfold getMd5, readFile, perform, bind, ret. now rewrite Hr, Hc.
Qed.

Lemma refused_upload_url_stops_preparer_witness :
  getPresignedUrlAndUpload worldNoUploadUrl
    {| zipFilePath := "/tmp/src.zip" |}
  = (Err (External "AccessDeniedException"),
     [EvReadFile "/tmp/src.zip";
      EvCreateUploadUrl
        {| contentMd5 := md5Base64 worldNoUploadUrl "PK-bytes";
           artifactType := "SourceCode" |}]).
Proof.
  apply (refused_upload_url_stops_preparer worldNoUploadUrl
           {| zipFilePath := "/tmp/src.zip" |} "PK-bytes"
           (External "AccessDeniedException")).
  - discriminate.
  - reflexivity.
  - reflexivity.
Defined.

(** X17. The storage endpoint refuses the archive, or the transfer fails:
    the preparer throws the error with the fixed guidance text and returns
    no artifact map, although the upload URL has been issued. *)
Theorem failed_upload_stops_preparer (w : World) (truncation : Truncation)
    (bytes : string) (srcResp : CreateUploadUrlResponse) :
  zipFilePath truncation <> ""%string ->
  readFileSync w (zipFilePath truncation) = Ok bytes ->
  createUploadUrl w {| contentMd5 := md5Base64 w bytes;
                       artifactType := "SourceCode" |} = Ok srcResp ->
  UploadFails (storage w "PUT" (uploadUrl srcResp) bytes
                 (requestHeaders srcResp)) ->
  getPresignedUrlAndUpload w truncation
  = (Err (Error uploadFailedMessage),
     [EvReadFile (zipFilePath truncation);
      EvCreateUploadUrl {| contentMd5 := md5Base64 w bytes;
                           artifactType := "SourceCode" |};
      EvReadFile (zipFilePath truncation);
      EvFetch "PUT" (uploadUrl srcResp) bytes (requestHeaders srcResp)]).
Proof.
  intros Hne Hr Hc Hf. apply fetchResponse_fails in Hf as [e He].
  unfold getPresignedUrlAndUpload.
  apply String.eqb_neq in Hne. rewrite Hne.
  unfold getMd5, uploadArtifactToS3, readFile, fetch, perform, bind,
    tryCatch, ret, throw.
  rewrite Hr. cbn [app]. rewrite Hc, He. reflexivity.
Qed.

Lemma failed_upload_stops_preparer_witness :
  getPresignedUrlAndUpload worldForbidden {| zipFilePath := "/tmp/src.zip" |}
  = (Err (Error uploadFailedMessage),
     [EvReadFile "/tmp/src.zip";
      EvCreateUploadUrl {| contentMd5 := md5Base64 worldForbidden "PK-bytes";
                           artifactType := "SourceCode" |};
      EvReadFile "/tmp/src.zip";
      EvFetch "PUT" (uploadUrl sampleUploadResponse) "PK-bytes"
        (requestHeaders sampleUploadResponse)]).
Proof.
  apply (failed_upload_stops_preparer worldForbidden
           {| zipFilePath := "/tmp/src.zip" |} "PK-bytes"
           sampleUploadResponse).
  - discriminate.
  - reflexivity.
  - reflexivity.
  - simpl. lia.
Defined.

(** X16. An artifact map is only returned for an upload that was made: when
    the preparer returns, the archive path was not empty, the upload URL
    was issued for the digest of the archive's bytes, those bytes were PUT
    to that URL in a single request, and the map names that upload. *)
Theorem returned_artifact_was_uploaded (w : World) (truncation : Truncation)
    (artifactMap : ArtifactMap) (events : list Event) :
  getPresignedUrlAndUpload w truncation = (Ok artifactMap, events) ->
  zipFilePath truncation <> ""%string
  /\ exists bytes srcResp,
       readFileSync w (zipFilePath truncation) = Ok bytes
       /\ createUploadUrl w {| contentMd5 := md5Base64 w bytes;
                               artifactType := "SourceCode" |} = Ok srcResp
       /\ artifactMap = {| SourceCode := uploadId srcResp |}
       /\ events
          = [EvReadFile (zipFilePath truncation);
             EvCreateUploadUrl {| contentMd5 := md5Base64 w bytes;
                                  artifactType := "SourceCode" |};
             EvReadFile (zipFilePath truncation);
             EvFetch "PUT" (uploadUrl srcResp) bytes (requestHeaders srcResp)].
Proof.
  unfold getPresignedUrlAndUpload.
  destruct (String.eqb_spec (zipFilePath truncation) "") as [|Hne];
    [discriminate |].
  unfold getMd5, uploadArtifactToS3, readFile, fetch, perform, bind,
    tryCatch, ret, throw.
  destruct (readFileSync w (zipFilePath truncation)) as [bytes|e];
    [| discriminate].
  cbn [app].
  destruct (createUploadUrl w _) as [srcResp|e] eqn:Hc; [| discriminate].
  destruct (fetchResponse _) as [[status text]|e]; [| discriminate].
  cbn. intros [= <- <-]. split; [exact Hne |].
  exists bytes, srcResp. auto.
Qed.

Lemma returned_artifact_was_uploaded_witness :
  "/tmp/src.zip"%string <> ""%string
  /\ exists bytes srcResp,
       readFileSync worldAccepting "/tmp/src.zip" = Ok bytes
       /\ createUploadUrl worldAccepting
            {| contentMd5 := md5Base64 worldAccepting bytes;
               artifactType := "SourceCode" |} = Ok srcResp
       /\ {| SourceCode := "upload-1" |} = {| SourceCode := uploadId srcResp |}
       /\ [EvReadFile "/tmp/src.zip";
           EvCreateUploadUrl {| contentMd5 := "1B2M2Y8AsgTpgAmY7PhCfg==";
                                artifactType := "SourceCode" |};
           EvReadFile "/tmp/src.zip";
           EvFetch "PUT" "https://bucket.example/upload-1" "PK-bytes"
             [("content-type", "application/zip")]%string]
          = [EvReadFile "/tmp/src.zip";
             EvCreateUploadUrl
               {| contentMd5 := md5Base64 worldAccepting bytes;
                  artifactType := "SourceCode" |};
             EvReadFile "/tmp/src.zip";
             EvFetch "PUT" (uploadUrl srcResp) bytes (requestHeaders srcResp)].
Proof.
  apply (returned_artifact_was_uploaded worldAccepting
           {| zipFilePath := "/tmp/src.zip" |}).
  reflexivity.
Defined.

End UploadRuns.

(** * Properties of the chat messages *)

Module ConnectorFacts.
Import Connector.

Lemma lastChar_app (p s : string) :
  s <> ""%string -> lastChar (p ++ s) = lastChar s.
Proof.
  intros Hs. induction p as [|c p IH]; [reflexivity |].
  cbn [append lastChar]. rewrite IH.
  destruct (p ++ s)%string eqn:E; [| reflexivity].
  destruct p; [cbn in E; congruence | discriminate].
Qed.

Lemma string_length_app (p s : string) :
  String.length (p ++ s) = (String.length p + String.length s)%nat.
Proof. induction p as [|c p IH]; cbn; [reflexivity | now rewrite IH]. Qed.

Lemma string_app_inv_tail (s : string) : forall p q : string,
  (p ++ s = q ++ s)%string -> p = q.
Proof.
  induction p as [|c p IH]; intros q H.
  - destruct q as [|d q]; [reflexivity |].
    apply (f_equal String.length) in H. cbn in H.
    rewrite string_length_app in H. lia.
  - destruct q as [|d q].
    + apply (f_equal String.length) in H. cbn in H.
      rewrite string_length_app in H. lia.
    + cbn in H. injection H as -> H. now rewrite (IH q H).
Qed.

Lemma confirm_is_not_cancel (p q : string) :
  ("gumby" ++ p ++ "Confirm" <> "gumby" ++ q ++ "Cancel")%string.
Proof.
  intros H. cbn in H. injection H as H.
  apply (f_equal lastChar) in H.
  rewrite !lastChar_app in H by discriminate. discriminate.
Qed.

(** X20. The id of a button of a chat prompt tells which prompt prefix and
    which button it is: two buttons of any two prompts that share an id
    were built for the same prefix and carry the same label. *)
Theorem chat_prompt_button_id_identifies
    (now1 now2 : Z) (scanChat1 scanChat2 : string)
    (props1 props2 : ChatPromptProps) (prefix1 prefix2 tab1 tab2 : string)
    (keep1 keep2 : option bool) (b1 b2 : ChatItemButton) :
  In b1 (formButtons (newChatPrompt now1 scanChat1 props1 prefix1 tab1 keep1)) ->
  In b2 (formButtons (newChatPrompt now2 scanChat2 props2 prefix2 tab2 keep2)) ->
  id b1 = id b2 ->
  prefix1 = prefix2 /\ text b1 = text b2.
Proof.
  cbn [newChatPrompt formButtons app].
  intros [<-|[<-|[]]] [<-|[<-|[]]]; cbn [id text]; intros H.
  - split; [| reflexivity]. injection H as H.
    now apply string_app_inv_tail in H.
  - now apply confirm_is_not_cancel in H.
  - symmetry in H. now apply confirm_is_not_cancel in H.
  - split; [| reflexivity]. injection H as H.
    now apply string_app_inv_tail in H.
Qed.

Lemma chat_prompt_button_id_identifies_witness :
  "Scan"%string = "Scan"%string /\ "Cancel"%string = "Cancel"%string.
Proof.
  apply (chat_prompt_button_id_identifies 0 1 "scanChat" "scanChat"
           {| promptMessage := None; promptFormItems := [] |}
           {| promptMessage := Some "Run?"%string; promptFormItems := [] |}
           "Scan" "Scan" "tab-1" "tab-2" None (Some false)
           {| keepCardAfterClick := false; waitMandatoryFormItems := false;
              text := "Cancel"; id := "gumbyScanCancel" |}
           {| keepCardAfterClick := false; waitMandatoryFormItems := false;
              text := "Cancel"; id := "gumbyScanCancel" |}).
  - simpl. right. left. reflexivity.
  - simpl. right. left. reflexivity.
  - reflexivity.
Defined.

(** X21. A chat message never carries an empty message id: an empty id in
    the props is dropped like an absent one, any other id is kept; an
    absent button list becomes the empty list. *)
Theorem chat_message_id_is_never_empty
    (now : Z) (scanChat : string) (props : ChatMessageProps) (tabID : string) :
  messageId (newChatMessage now scanChat props tabID) <> Some ""%string
  /\ (forall mid, mid <> ""%string ->
        props_messageId props = Some mid ->
        messageId (newChatMessage now scanChat props tabID) = Some mid)
  /\ (props_messageId props = Some ""%string ->
      messageId (newChatMessage now scanChat props tabID) = None)
  /\ (props_buttons props = None ->
      buttons (newChatMessage now scanChat props tabID) = []).
Proof.
  cbn [newChatMessage messageId buttons].
  repeat split.
  - destruct (props_messageId props) as [[|c s]|]; discriminate.
  - intros mid Hne ->. destruct mid; [congruence | reflexivity].
  - intros ->. reflexivity.
  - intros ->. reflexivity.
Qed.

End ConnectorFacts.

(** * Properties of the getting-started webview *)

Module WebviewFacts.
Import Webview.

Lemma step_Coherent state action :
  Coherent state -> Coherent (step state action).
Proof.
  unfold Coherent. destruct state as [[panel|] subscribed]; cbn;
    intros ->; destruct action as [source start|]; reflexivity.
Qed.

Lemma fold_step_Coherent actions : forall state,
  Coherent state -> Coherent (fold_left step actions state).
Proof.
  induction actions as [|action actions IH]; intros state H; [exact H |].
  cbn. apply IH. now apply step_Coherent.
Qed.

Lemma setSource_start view source :
  start (setSource view source) = start view.
Proof. unfold setSource. now destruct (codeWhispererSource view). Qed.

Lemma fold_step_start actions : forall state,
  Coherent state ->
  option_map start (activePanel (fold_left step actions state))
  = panelStart (option_map start (activePanel state)) actions.
Proof.
  induction actions as [|action actions IH]; intros state H; [reflexivity |].
  cbn [fold_left]. rewrite IH by now apply step_Coherent.
  unfold Coherent in H.
  destruct state as [[panel|] subscribed]; cbn in H; subst subscribed;
    destruct action as [source start|]; cbn;
    now rewrite ?setSource_start.
Qed.

Lemma effects_balance actions : forall state,
  Coherent state ->
  countEffect isSubscribe (effectsOf state actions)
  = countEffect isCreate (effectsOf state actions).
Proof.
  unfold countEffect.
  induction actions as [|action actions IH]; intros state H; [reflexivity |].
  cbn [effectsOf]. rewrite !filter_app, !length_app.
  rewrite (IH _ (step_Coherent state action H)).
  f_equal. unfold Coherent in H.
  destruct state as [[panel|] subscribed]; cbn in H; subst subscribed;
    destruct action as [source start|]; reflexivity.
Qed.

(** X22. After any sequence of calls of [showCodeWhispererWebview] and
    dispose events, the active panel, if there is one, carries the [start]
    of the first call made since the last dispose event (or since the
    beginning): the [start] of every later call is ignored. *)
Theorem panel_keeps_first_start (actions : list Action) :
  option_map start (activePanel (run actions)) = panelStart None actions.
Proof. unfold run. now rewrite fold_step_start. Qed.

(** X23. Whatever the calls and dispose events, the module subscribes one
    dispose handler for every panel it creates, no more and no fewer. *)
Theorem one_dispose_handler_per_panel (actions : list Action) :
  countEffect isSubscribe (effectsOf initialState actions)
  = countEffect isCreate (effectsOf initialState actions).
Proof. now apply effects_balance. Qed.

Example panel_life :
  option_map start
    (activePanel
       (run [Show codewhispererDeveloperTools "first";
             Show codewhispererDeveloperTools "second"]))
  = Some "first"%string
  /\ option_map start
       (activePanel
          (run [Show codewhispererDeveloperTools "first"; Disposed;
                Show codewhispererDeveloperTools "second"]))
     = Some "second"%string.
Proof. split; reflexivity. Qed.

End WebviewFacts.
